(** * Optimize1qGatesDecomposition

    A shallow embedding of
    [qiskit/transpiler/passes/optimization/optimize_1q_decomposition.py]:
    the constructor, which selects the Euler bases to try, and [run], which
    rewrites the runs of single-qubit gates of a DAG circuit.

    Python values are modelled as follows.
    - [str] is [string]; a [set] of gate names is a [list string] read up to
      membership ([issubset] only looks at membership).
    - The dict [ONE_QUBIT_EULER_BASIS_GATES] is an association list in
      insertion order (the order [.items()] iterates in), with distinct keys.
    - [float] is the kernel's binary64 [float].
    - An exception is the [Raise] branch of [result]. *)

From Stdlib Require Import List String Bool Arith Lia Floats.
Import ListNotations.

Local Open Scope string_scope.
Local Open Scope list_scope.

(** ** Exceptions *)

(** The expression whose subscript was out of range. *)
Inductive site : Type :=
| run_0      (* run[0] *)
| params_0   (* params[0] *)
| data_0.    (* new_circ.data[0] *)

Inductive exn : Type :=
| IndexError (s : site)
| KeyError (k : string)
| ValueError.

Inductive result (A : Type) : Type :=
| Ok (a : A)
| Raise (e : exn).

Arguments Ok {A} a.
Arguments Raise {A} e.

Definition bind {A B : Type} (r : result A) (k : A -> result B) : result B :=
  match r with
  | Ok a => k a
  | Raise e => Raise e
  end.

Notation "x <- r ;; k" := (bind r (fun x => k))
  (at level 61, r at next level, right associativity).
Notation "' p <- r ;; k" := (bind r (fun x => match x with p => k end))
  (at level 61, p pattern, r at next level, right associativity).

(** ** Python builtins used by the pass *)

Module Py.

(** [set(a).issubset(set(b))] *)
Definition issubset (a b : list string) : bool :=
  forallb (fun x => existsb (String.eqb x) b) a.

(** [d[k]] on a dict held in insertion order. *)
Fixpoint getitem {V : Type} (d : list (string * V)) (k : string) : result V :=
  match d with
  | [] => Raise (KeyError k)
  | (k', v) :: d' => if String.eqb k' k then Ok v else getitem d' k
  end.

(** [l.remove(x)]: drops the first element equal to [x], [ValueError] when
    there is none. *)
Fixpoint remove {A : Type} (eqb : A -> A -> bool) (l : list A) (x : A)
  : result (list A) :=
  match l with
  | [] => Raise ValueError
  | y :: l' =>
      if eqb y x then Ok l'
      else l'' <- remove eqb l' x ;; Ok (y :: l'')
  end.

(** [min(l, key=len)] on a non-empty [l], started from its first element:
    a later element replaces the current one only when strictly smaller. *)
Fixpoint min_from {A : Type} (key : A -> nat) (best : A) (l : list A) : A :=
  match l with
  | [] => best
  | x :: l' => if Nat.ltb (key x) (key best) then min_from key x l' else min_from key best l'
  end.

(** [min(l, key=key)]; [ValueError] on an empty sequence. *)
Definition min {A : Type} (key : A -> nat) (l : list A) : result A :=
  match l with
  | [] => Raise ValueError
  | x :: l' => Ok (min_from key x l')
  end.

(** [l[i]], with the site recorded when [i] is out of range. *)
Definition index {A : Type} (s : site) (l : list A) (i : nat) : result A :=
  match nth_error l i with
  | Some x => Ok x
  | None => Raise (IndexError s)
  end.

(** [np.isclose(x, y, atol=atol, rtol=0)] for scalars:
    [abs(x - y) <= atol + 0 * abs(y)]; a NaN or an infinity on either side
    makes the comparison false, as numpy's non-finite branch does for a
    finite [y]. *)
Definition isclose (x y atol : float) : bool :=
  PrimFloat.leb (PrimFloat.abs (PrimFloat.sub x y))
                (PrimFloat.add atol (PrimFloat.mul 0%float (PrimFloat.abs y))).

End Py.

(** ** The Euler basis table and the decomposer handles *)

(** [one_qubit_decompose.ONE_QUBIT_EULER_BASIS_GATES]: basis name to the gate
    names the basis emits. *)
Definition EulerBasisGates : Type := list (string * list string).

(** [one_qubit_decompose.OneQubitEulerDecomposer(name)]: the pass reads only
    its [basis] attribute and calls it. One object is made per key of the
    table, so two handles are the same object exactly when their names
    agree. *)
Record OneQubitEulerDecomposer : Type := mkDecomposer { basis : string }.

Definition decomposer_eqb (a b : OneQubitEulerDecomposer) : bool :=
  String.eqb (basis a) (basis b).

(** ** [Optimize1qGatesDecomposition.__init__] *)

Module Init.

Section Selector.

Variable euler_basis_gates : EulerBasisGates.

(** Lines 49-56, the [for base in basis_copy] loop. Returns [self.basis] as
    the loop leaves it and whether the loop ended in [break]. *)
Fixpoint scan (gates : list string)
    (basis_copy self_basis : list OneQubitEulerDecomposer)
  : result (list OneQubitEulerDecomposer * bool) :=
  match basis_copy with
  | [] => Ok (self_basis, false)
  | base :: rest =>
      base_gates <- Py.getitem euler_basis_gates (basis base) ;;
      if Py.issubset base_gates gates then
        self_basis' <- Py.remove decomposer_eqb self_basis base ;;
        scan gates rest self_basis'
      else if Py.issubset gates base_gates then
        Ok (self_basis, true)
      else
        scan gates rest self_basis
  end.

(** Lines 47-60, the body of the loop over the table's items. *)
Definition step (basis_set : list string)
    (self_basis : list OneQubitEulerDecomposer)
    (item : string * list string)
  : result (list OneQubitEulerDecomposer) :=
  let '(euler_basis_name, gates) := item in
  if Py.issubset gates basis_set then
    '(self_basis', broke) <- scan gates self_basis self_basis ;;
    if broke then Ok self_basis'
    else Ok (self_basis' ++ [mkDecomposer euler_basis_name])
  else Ok self_basis.

(** Lines 46-60, the loop over [euler_basis_gates.items()]. *)
Fixpoint loop (basis_set : list string)
    (items : list (string * list string))
    (self_basis : list OneQubitEulerDecomposer)
  : result (list OneQubitEulerDecomposer) :=
  match items with
  | [] => Ok self_basis
  | item :: items' =>
      self_basis' <- step basis_set self_basis item ;;
      loop basis_set items' self_basis'
  end.

(** Lines 41-60: the value of [self.basis] after construction. [if basis:]
    is false for [None] and for an empty list. *)
Definition init (basis : option (list string))
  : result (option (list OneQubitEulerDecomposer)) :=
  match basis with
  | None => Ok None
  | Some [] => Ok None
  | Some basis_set =>
      self_basis <- loop basis_set euler_basis_gates [] ;;
      Ok (Some self_basis)
  end.

End Selector.

End Init.

(** ** Vocabulary for the selector's properties *)

(** The gate list the table gives for a handle: [euler_basis_gates[d.basis]]. *)
Definition gates_of (table : EulerBasisGates) (d : OneQubitEulerDecomposer)
    (g : list string) : Prop :=
  Py.getitem table (basis d) = Ok g.

(** No two selected bases such that the gates of one are a subset of the
    gates of the other. *)
Definition antichain (table : EulerBasisGates)
    (sel : list OneQubitEulerDecomposer) : Prop :=
  forall d1 d2 g1 g2,
    In d1 sel -> In d2 sel -> d1 <> d2 ->
    gates_of table d1 g1 -> gates_of table d2 g2 ->
    Py.issubset g1 g2 = false.

(** What holds of [self.basis] once the items [pre] of the table have been
    visited: no handle twice, every handle made from a visited item whose
    gates are within the target, and no subset pair. *)
Definition selected_inv (table : EulerBasisGates) (target : list string)
    (pre : list (string * list string))
    (sel : list OneQubitEulerDecomposer) : Prop :=
  NoDup sel
  /\ (forall d, In d sel ->
        exists g, In (basis d, g) pre /\ Py.issubset g target = true)
  /\ antichain table sel.

(** ** Circuits, DAG nodes and the external collaborators *)

(** A gate as the pass reads it: whether it is an instance of [U3Gate]
    ([isinstance(op, U3Gate)]), its [name] and its [params], already floats
    ([float(params[0])]). *)
Record Instruction : Type := mkInstruction {
  is_U3Gate : bool;
  name : string;
  params : list float
}.

(** A [QuantumCircuit] on one qubit. [data] holds the instructions in order:
    the entry [data[i][0]] of the source, its qubit arguments left out.
    [len(circ)] is [List.length (data circ)]. *)
Record QuantumCircuit : Type := mkCircuit { data : list Instruction }.

Definition len (circ : QuantumCircuit) : nat := List.length (data circ).

(** A [DAGNode] of type op: the identity the graph addresses it by, and
    its [op]. *)
Record DAGNode : Type := mkNode { node_id : nat; op : Instruction }.

(** [qiskit.quantum_info.Operator], numpy and the decomposer library, as far
    as the pass calls them. *)
Class Linalg : Type := {
  Matrix : Type;
  (** [np.eye(2)] *)
  identity_matrix : Matrix;
  (** [np.array_equal(a, b)] *)
  array_equal : Matrix -> Matrix -> bool;
  (** [op.to_matrix()] *)
  to_matrix : Instruction -> Matrix;
  (** [Operator(op)] *)
  Operator : Instruction -> Matrix;
  (** [operator.compose(op)] *)
  compose : Matrix -> Instruction -> Matrix;
  (** [decomposer(operator)] *)
  call : OneQubitEulerDecomposer -> Matrix -> QuantumCircuit
}.

(** [DAGCircuit] and [circuit_to_dag], as far as the pass calls them. The
    graph is mutated in place in the source; here every mutation returns the
    new graph. *)
Class Dag : Type := {
  DAGCircuit : Type;
  (** [dag.collect_1q_runs()], in the order the loop visits the runs *)
  collect_1q_runs : DAGCircuit -> list (list DAGNode);
  (** [dag.remove_op_node(node)] *)
  remove_op_node : DAGCircuit -> DAGNode -> DAGCircuit;
  (** [dag.substitute_node_with_dag(node, new_dag)] *)
  substitute_node_with_dag : DAGCircuit -> DAGNode -> DAGCircuit -> DAGCircuit;
  (** [circuit_to_dag(circ)] *)
  circuit_to_dag : QuantumCircuit -> DAGCircuit
}.

(** ** [Optimize1qGatesDecomposition.run] *)

(** [np.pi] and the constants of line 87-88 as binary64 values. *)
Definition np_pi : float := 0x1.921fb54442d18p+1%float.
Definition atol_1e_12 : float := 0x1.19799812dea11p-40%float.

(** Line 87-88: [np.isclose(x, [0, np.pi/2], atol=1e-12, rtol=0).any()]. *)
Definition isclose_0_or_half_pi (x : float) : bool :=
  Py.isclose x 0%float atol_1e_12
  || Py.isclose x (PrimFloat.div np_pi 2%float) atol_1e_12.

(** How the length-1 prelude of the loop body (lines 77-91) leaves it:
    through [continue], or on to line 93 with the flag [single_u3]. *)
Inductive flow : Type :=
| Continue
| Proceed (single_u3 : bool).

Module Run.

Section Pass.

Context {L : Linalg} {G : Dag}.

(** Lines 77-91. Returns the graph (with the node removed on the identity
    branch) and how the body goes on. *)
Definition single_gate (dag : DAGCircuit) (run : list DAGNode)
  : result (DAGCircuit * flow) :=
  if Nat.leb (List.length run) 1 then
    run0 <- Py.index run_0 run 0 ;;
    let params := params (op run0) in
    if Nat.ltb 0 (List.length params)
       && array_equal (to_matrix (op run0)) identity_matrix then
      Ok (remove_op_node dag run0, Continue)
    else
      is_special <-
        (if is_U3Gate (op run0) then
           p0 <- Py.index params_0 params 0 ;;
           Ok (isclose_0_or_half_pi p0)
         else Ok false) ;;
      if is_special then Ok (dag, Proceed true)
      else Ok (dag, Continue)
  else Ok (dag, Proceed false).

(** Lines 94-96: the operator of the run. *)
Definition operator_of (run : list DAGNode) : result Matrix :=
  run0 <- Py.index run_0 run 0 ;;
  Ok (fold_left (fun operator gate => compose operator (op gate))
                (skipn 1 run) (Operator (op run0))).


(** Lines 93, 97-98: one candidate per decomposer, appended in order. *)
Definition new_circs_of (self_basis : list OneQubitEulerDecomposer)
    (operator : Matrix) : list QuantumCircuit :=
  fold_left (fun new_circs decomposer => new_circs ++ [call decomposer operator])
            self_basis [].

(** Lines 101-102, the test that guards the substitution. [or] and [and]
    evaluate their right operand only when needed. *)
Definition accepts (run : list DAGNode) (single_u3 : bool)
    (new_circ : QuantumCircuit) : result bool :=
  if Nat.ltb (len new_circ) (List.length run) then Ok true
  else if single_u3 then
    first <- Py.index data_0 (data new_circ) 0 ;;
    Ok (negb (String.eqb (name first) "u3"))
  else Ok false.

(** Lines 103-107: substitute the first node, remove the others. *)
Definition substitute (dag : DAGCircuit) (run : list DAGNode)
    (new_circ : QuantumCircuit) : result DAGCircuit :=
  let new_dag := circuit_to_dag new_circ in
  run0 <- Py.index run_0 run 0 ;;
  let dag := substitute_node_with_dag dag run0 new_dag in
  Ok (fold_left remove_op_node (skipn 1 run) dag).

(** Lines 93-107. *)
Definition optimize (self_basis : list OneQubitEulerDecomposer)
    (dag : DAGCircuit) (run : list DAGNode) (single_u3 : bool)
  : result DAGCircuit :=
  operator <- operator_of run ;;
  let new_circs := new_circs_of self_basis operator in
  match new_circs with
  | [] => Ok dag
  | _ :: _ =>
      new_circ <- Py.min len new_circs ;;
      ok <- accepts run single_u3 new_circ ;;
      if ok then substitute dag run new_circ else Ok dag
  end.

(** Lines 77-107, the body of [for run in runs]. *)
Definition body (self_basis : list OneQubitEulerDecomposer)
    (dag : DAGCircuit) (run : list DAGNode) : result DAGCircuit :=
  '(dag', fl) <- single_gate dag run ;;
  match fl with
  | Continue => Ok dag'
  | Proceed single_u3 => optimize self_basis dag' run single_u3
  end.

(** Lines 76-107, the loop over the runs. *)
Fixpoint for_runs (self_basis : list OneQubitEulerDecomposer)
    (runs : list (list DAGNode)) (dag : DAGCircuit) : result DAGCircuit :=
  match runs with
  | [] => Ok dag
  | run :: runs' =>
      dag' <- body self_basis dag run ;;
      for_runs self_basis runs' dag'
  end.

(** Lines 71-108. [self_basis] is [self.basis]; [not self.basis] holds for
    [None] and for an empty list. *)
Definition run (self_basis : option (list OneQubitEulerDecomposer))
    (dag : DAGCircuit) : result DAGCircuit :=
  match self_basis with
  | None => Ok dag
  | Some [] => Ok dag
  | Some ((_ :: _) as decomposers) =>
      for_runs decomposers (collect_1q_runs dag) dag
  end.

End Pass.

End Run.

(** ** Concrete collaborators, for the examples *)

(** Modelled from the spec: the table [ONE_QUBIT_EULER_BASIS_GATES] lives in
    [one_qubit_decompose], outside this file. The theorems below take the
    table as a parameter; this instance, with the bases and gate names the
    specification mentions, is what the examples run on. *)
Definition example_euler_basis_gates : EulerBasisGates :=
  [ ("U3",   ["u3"]);
    ("U1X",  ["u1"; "rx"]);
    ("ZYZ",  ["rz"; "ry"]);
    ("ZXZ",  ["rz"; "rx"]);
    ("XYX",  ["rx"; "ry"]) ].

(** A table in which two bases emit the same gates (listed in different
    orders). *)
Definition twin_euler_basis_gates : EulerBasisGates :=
  [ ("ZXZ", ["rz"; "rx"]);
    ("XZX", ["rx"; "rz"]) ].

(** The Pauli matrices up to global phase, as an instance of [Linalg]: a
    matrix is the pair (x bit, z bit), [I = (false, false)],
    [X = (true, false)], [Z = (false, true)], [Y = (true, true)], and the
    product up to phase is the bitwise exclusive or. Angles are read as
    multiples of pi: only [0] and [np_pi] occur in the examples. *)
Module Pauli.

Definition matrix : Type := (bool * bool)%type.

Definition I : matrix := (false, false).
Definition X : matrix := (true, false).
Definition Z : matrix := (false, true).
Definition Y : matrix := (true, true).

Definition mul (a b : matrix) : matrix :=
  (xorb (fst a) (fst b), xorb (snd a) (snd b)).

Definition eqb (a b : matrix) : bool :=
  Bool.eqb (fst a) (fst b) && Bool.eqb (snd a) (snd b).

Definition is_pi (a : float) : bool := PrimFloat.eqb a np_pi.

Definition u3 (theta phi lam : float) : Instruction :=
  mkInstruction true "u3" [theta; phi; lam].
Definition u1 (lam : float) : Instruction := mkInstruction false "u1" [lam].
Definition rx (theta : float) : Instruction := mkInstruction false "rx" [theta].
Definition x : Instruction := mkInstruction false "x" [].
Definition z : Instruction := mkInstruction false "z" [].

(** [u3(0, phi, lam)] is diagonal and [u3(pi, phi, lam)] antidiagonal;
    [u1(pi) = Z]; [rx(pi) = -iX]. *)
Definition matrix_of (g : Instruction) : matrix :=
  if String.eqb (name g) "u3" then
    match params g with
    | [theta; phi; lam] =>
        (is_pi theta, xorb (is_pi theta) (xorb (is_pi phi) (is_pi lam)))
    | _ => I
    end
  else if String.eqb (name g) "u1" then
    match params g with [lam] => (false, is_pi lam) | _ => I end
  else if String.eqb (name g) "rx" then
    match params g with [theta] => (is_pi theta, false) | _ => I end
  else if String.eqb (name g) "x" then X
  else if String.eqb (name g) "z" then Z
  else I.

(** The effect of a circuit: the product of its gates. *)
Definition of_circuit (circ : QuantumCircuit) : matrix :=
  fold_left (fun m g => mul m (matrix_of g)) (data circ) I.

(** The decomposer of basis ["U3"] emits one [u3] gate whatever the matrix;
    any other basis is read as ["U1X"], [u1] then [rx] with the gates of
    angle zero dropped. *)
Definition decompose (d : OneQubitEulerDecomposer) (m : matrix)
  : QuantumCircuit :=
  if String.eqb (basis d) "U3" then
    mkCircuit
      [u3 (if fst m then np_pi else 0%float) 0%float
          (if xorb (fst m) (snd m) then np_pi else 0%float)]
  else
    mkCircuit ((if snd m then [u1 np_pi] else [])
               ++ (if fst m then [rx np_pi] else [])).

#[export] Instance linalg : Linalg := {|
  Matrix := matrix;
  identity_matrix := I;
  array_equal := eqb;
  to_matrix := matrix_of;
  Operator := matrix_of;
  compose := fun m g => mul m (matrix_of g);
  call := decompose
|}.

End Pauli.

(** A circuit on a single wire as an instance of [Dag]: the graph is the
    list of its nodes in wire order, and the whole wire is its only run. *)
Module Wire.

Definition dag : Type := list DAGNode.

Definition runs (d : dag) : list (list DAGNode) :=
  match d with
  | [] => []
  | _ :: _ => [d]
  end.

Definition remove (d : dag) (node : DAGNode) : dag :=
  filter (fun m => negb (Nat.eqb (node_id m) (node_id node))) d.

(** An identity no node of [d] carries. *)
Definition fresh (d : dag) : nat :=
  S (fold_right Nat.max 0 (map node_id d)).

Definition renumber (start : nat) (d : dag) : dag :=
  map (fun p => mkNode (fst p) (op (snd p)))
      (combine (seq start (List.length d)) d).

Fixpoint splice (d : dag) (node : DAGNode) (new_nodes : dag) : dag :=
  match d with
  | [] => []
  | m :: d' =>
      if Nat.eqb (node_id m) (node_id node) then new_nodes ++ d'
      else m :: splice d' node new_nodes
  end.

Definition substitute (d : dag) (node : DAGNode) (new_dag : dag)
  : dag :=
  splice d node (renumber (fresh d) new_dag).

Definition of_circuit (circ : QuantumCircuit) : dag :=
  renumber 0 (map (mkNode 0) (data circ)).

#[export] Instance wire : Dag := {|
  DAGCircuit := dag;
  collect_1q_runs := runs;
  remove_op_node := remove;
  substitute_node_with_dag := substitute;
  circuit_to_dag := of_circuit
|}.

End Wire.

(** A graph whose run collection reports one run with no node in it, for
    the example of an empty run. *)
Module Malformed.

Definition dag : Dag := {|
  DAGCircuit := unit;
  collect_1q_runs := fun _ => [[]];
  remove_op_node := fun d _ => d;
  substitute_node_with_dag := fun d _ _ => d;
  circuit_to_dag := fun _ => tt
|}.

End Malformed.

(** The diagonal matrices I, Z, -I and -Z, exactly, as an instance of
    [Linalg]: a matrix is the pair (z bit, minus sign) and the product is
    the exclusive or of both. [rz(2 pi)] is -I, [u1(pi)] and [u3(0, 0, pi)]
    are Z. The decomposer returns the empty circuit for I and -I, [u1(pi)]
    for Z and [u3(0, 0, pi)] for -Z: each output has the effect of the
    matrix up to the sign, and none is longer than any other circuit with
    that effect. Angles other than [0], [np_pi] and [2 * np_pi] are not
    read. *)
Module Diagonal.

Definition matrix : Type := (bool * bool)%type.

Definition I : matrix := (false, false).

Definition mul (a b : matrix) : matrix :=
  (xorb (fst a) (fst b), xorb (snd a) (snd b)).

Definition eqb (a b : matrix) : bool :=
  Bool.eqb (fst a) (fst b) && Bool.eqb (snd a) (snd b).


Definition two_pi : float := PrimFloat.mul 2%float np_pi.


Definition matrix_of (g : Instruction) : matrix :=
  if String.eqb (name g) "rz" then
    match params g with
    | [theta] => (false, PrimFloat.eqb theta two_pi)
    | _ => I
    end
  else if String.eqb (name g) "u1" then
    match params g with [lam] => (Pauli.is_pi lam, false) | _ => I end
  else if String.eqb (name g) "u3" then
    match params g with
    | [theta; phi; lam] => (xorb (Pauli.is_pi phi) (Pauli.is_pi lam), false)
    | _ => I
    end
  else if String.eqb (name g) "z" then (true, false)
  else I.

(** The effect of a circuit: the product of its gates. *)
Definition of_circuit (circ : QuantumCircuit) : matrix :=
  fold_left (fun m g => mul m (matrix_of g)) (data circ) I.

Definition decompose (d : OneQubitEulerDecomposer) (m : matrix)
  : QuantumCircuit :=
  if fst m then
    if snd m then mkCircuit [Pauli.u3 0%float 0%float np_pi]
    else mkCircuit [Pauli.u1 np_pi]
  else mkCircuit [].

Definition linalg : Linalg := {|
  Matrix := matrix;
  identity_matrix := I;
  array_equal := eqb;
  to_matrix := matrix_of;
  Operator := matrix_of;
  compose := fun m g => mul m (matrix_of g);
  call := decompose
|}.

End Diagonal.

(** ** Further vocabulary *)

(** [l1] is [l2] with some elements left out, the order kept. *)
Inductive subseq {A : Type} : list A -> list A -> Prop :=
| subseq_nil : subseq [] []
| subseq_skip (x : A) (l1 l2 : list A) : subseq l1 l2 -> subseq l1 (x :: l2)
| subseq_keep (x : A) (l1 l2 : list A) :
    subseq l1 l2 -> subseq (x :: l1) (x :: l2).

(** Every item of [pre] whose gates are within the target has its gates
    within those of some selected handle. *)
Definition covered (table : EulerBasisGates) (target : list string)
    (pre : list (string * list string))
    (sel : list OneQubitEulerDecomposer) : Prop :=
  forall n g, In (n, g) pre -> Py.issubset g target = true ->
    exists d gd, In d sel /\ gates_of table d gd /\ Py.issubset g gd = true.

(** The gate names of the selected bases, put together:
    [euler_basis_gates[d.basis]] for every selected [d]. *)
Definition gates_of_selection (table : EulerBasisGates)
    (sel : list OneQubitEulerDecomposer) : list string :=
  flat_map (fun d => match Py.getitem table (basis d) with
                     | Ok g => g
                     | Raise _ => []
                     end) sel.

(** A run the loop body can process: it has a first node, and a U3Gate in
    it carries its parameters. *)
Definition well_formed_run (run : list DAGNode) : Prop :=
  run <> []
  /\ forall node, In node run ->
       is_U3Gate (op node) = true -> params (op node) <> [].

(** Closes [NoDup l] for a list of distinct literals. *)
Ltac nodup_literals :=
  repeat (constructor; [simpl; intuition discriminate |]); constructor.

(** * Properties *)

(** ** Worked examples *)

Example init_u3 :
  Init.init example_euler_basis_gates (Some ["u3"; "cx"])
  = Ok (Some [mkDecomposer "U3"]).
Proof. reflexivity. Qed.

Example init_rotations :
  Init.init example_euler_basis_gates (Some ["rz"; "rx"; "ry"; "cx"])
  = Ok (Some [mkDecomposer "ZYZ"; mkDecomposer "ZXZ"; mkDecomposer "XYX"]).
Proof. reflexivity. Qed.

Example init_twins :
  Init.init twin_euler_basis_gates (Some ["rz"; "rx"])
  = Ok (Some [mkDecomposer "XZX"]).
Proof. reflexivity. Qed.

Example run_x_x :
  Run.run (L := Pauli.linalg) (G := Wire.wire) (Some [mkDecomposer "U3"])
          [mkNode 0 Pauli.x; mkNode 1 Pauli.x]
  = Ok [mkNode 2 (Pauli.u3 0 0 0)].
Proof. reflexivity. Qed.

Example run_u3_identity :
  Run.run (L := Pauli.linalg) (G := Wire.wire) (Some [mkDecomposer "U3"])
          [mkNode 2 (Pauli.u3 0 0 0)]
  = Ok [].
Proof. reflexivity. Qed.

Example run_u3_z_to_u1 :
  Run.run (L := Pauli.linalg) (G := Wire.wire) (Some [mkDecomposer "U1X"])
          [mkNode 0 (Pauli.u3 0 0 np_pi)]
  = Ok [mkNode 1 (Pauli.u1 np_pi)].
Proof. reflexivity. Qed.

Example run_x_x_to_nothing :
  Run.run (L := Pauli.linalg) (G := Wire.wire) (Some [mkDecomposer "U1X"])
          [mkNode 0 Pauli.x; mkNode 1 Pauli.x]
  = Ok [].
Proof. reflexivity. Qed.

Example run_picks_the_shorter_candidate :
  Run.run (L := Pauli.linalg) (G := Wire.wire)
          (Some [mkDecomposer "U3"; mkDecomposer "U1X"])
          [mkNode 0 Pauli.x; mkNode 1 Pauli.x; mkNode 2 Pauli.z;
           mkNode 3 Pauli.z]
  = Ok [].
Proof. reflexivity. Qed.

Example run_u3_z_tie :
  Run.run (L := Pauli.linalg) (G := Wire.wire)
          (Some [mkDecomposer "U3"; mkDecomposer "U1X"])
          [mkNode 0 (Pauli.u3 0 0 np_pi)]
  = Ok [mkNode 0 (Pauli.u3 0 0 np_pi)].
Proof. reflexivity. Qed.

(** ** Facts about the builtins *)

Lemma bind_Ok {A B : Type} (r : result A) (k : A -> result B) (b : B) :
  bind r k = Ok b -> exists a, r = Ok a /\ k a = Ok b.
Proof.
  destruct r as [a | e]; simpl; intros H.
  - exists a; split; [reflexivity | exact H].
  - discriminate H.
Qed.

Lemma existsb_eqb_In (x : string) (l : list string) :
  existsb (String.eqb x) l = true <-> In x l.
Proof.
  rewrite existsb_exists; split.
  - intros [y [Hy Heq]]. apply String.eqb_eq in Heq. now subst y.
  - intros H. exists x. split; [exact H | apply String.eqb_refl].
Qed.

Lemma issubset_spec (a b : list string) :
  Py.issubset a b = true <-> (forall x, In x a -> In x b).
Proof.
  unfold Py.issubset. rewrite forallb_forall. split; intros H x Hx.
  - apply existsb_eqb_In, H, Hx.
  - apply existsb_eqb_In, H, Hx.
Qed.

Lemma issubset_refl (a : list string) : Py.issubset a a = true.
Proof. apply issubset_spec. auto. Qed.

Lemma issubset_trans (a b c : list string) :
  Py.issubset a b = true -> Py.issubset b c = true -> Py.issubset a c = true.
Proof.
  rewrite !issubset_spec. intros Hab Hbc x Hx. auto.
Qed.

Lemma getitem_In {V : Type} (d : list (string * V)) (k : string) (v : V) :
  NoDup (map fst d) -> In (k, v) d -> Py.getitem d k = Ok v.
Proof.
  induction d as [| [k' v'] d IH]; simpl; intros Hnd Hin.
  - contradiction.
  - inversion Hnd as [| ? ? Hnotin Hnd']; subst.
    destruct Hin as [Heq | Hin].
    + inversion Heq; subst. now rewrite String.eqb_refl.
    + destruct (String.eqb k' k) eqn:E.
      * apply String.eqb_eq in E; subst k'.
        exfalso. apply Hnotin. now apply (in_map fst) in Hin.
      * now apply IH.
Qed.

Lemma getitem_Ok {V : Type} (d : list (string * V)) (k : string) (v : V) :
  Py.getitem d k = Ok v -> In (k, v) d.
Proof.
  induction d as [| [k' v'] d IH]; simpl; intros H.
  - discriminate.
  - destruct (String.eqb k' k) eqn:E.
    + apply String.eqb_eq in E; subst. inversion H; subst. now left.
    + right. now apply IH.
Qed.

Lemma decomposer_eqb_eq (a b : OneQubitEulerDecomposer) :
  decomposer_eqb a b = true <-> a = b.
Proof.
  unfold decomposer_eqb. rewrite String.eqb_eq.
  destruct a as [na], b as [nb]; simpl. split; intros H.
  - now subst.
  - now inversion H.
Qed.

Lemma decomposer_eq_dec (a b : OneQubitEulerDecomposer) : {a = b} + {a <> b}.
Proof.
  destruct (decomposer_eqb a b) eqn:E.
  - left. now apply decomposer_eqb_eq.
  - right. intros H. apply decomposer_eqb_eq in H. congruence.
Qed.

(** [l.remove(x)] succeeds when [x] is in [l]; on a list without repeats it
    leaves exactly the other elements. *)
Lemma remove_spec (l : list OneQubitEulerDecomposer) (x : OneQubitEulerDecomposer) :
  In x l -> NoDup l ->
  exists l', Py.remove decomposer_eqb l x = Ok l'
    /\ NoDup l'
    /\ (forall y, In y l' <-> In y l /\ y <> x).
Proof.
  induction l as [| y l IH]; simpl; intros Hin Hnd.
  - contradiction.
  - inversion Hnd as [| ? ? Hnotin Hnd']; subst.
    destruct (decomposer_eqb y x) eqn:E.
    + apply decomposer_eqb_eq in E; subst y.
      exists l. split; [reflexivity | split; [exact Hnd' |]].
      intros z. split.
      * intros Hz. split; [now right |]. intros ->. contradiction.
      * intros [[Hz | Hz] Hne]; [congruence | exact Hz].
    + assert (Hne : y <> x).
      { intros ->. rewrite (proj2 (decomposer_eqb_eq x x) eq_refl) in E.
        discriminate. }
      destruct Hin as [Hin | Hin]; [contradiction |].
      destruct (IH Hin Hnd') as [l' [Hr [Hnd'' Hiff]]].
      exists (y :: l'). rewrite Hr. simpl.
      split; [reflexivity | split].
      * constructor; [| exact Hnd'']. intros Hy. apply Hiff in Hy. tauto.
      * intros z. simpl. rewrite Hiff. split.
        -- intros [-> | [Hz Hzx]]; [split; [now left | exact Hne] | tauto].
        -- intros [[-> | Hz] Hzx]; [now left | right; tauto].
Qed.

(** ** The basis selector *)

Section SelectorFacts.

Variable table : EulerBasisGates.
Hypothesis table_keys : NoDup (map fst table).

(** What the inner loop does to [self.basis]: it only removes handles whose
    gates are within [gates]; when it runs to its end it has removed all of
    them and met no handle whose gates contain [gates]; it breaks only on a
    handle whose gates strictly contain [gates]. *)
Lemma scan_spec (gates : list string) :
  forall copy sb,
    NoDup copy -> NoDup sb ->
    (forall d, In d copy -> In d sb) ->
    (forall d, In d copy -> exists g, gates_of table d g) ->
    exists sb' broke,
      Init.scan table gates copy sb = Ok (sb', broke)
      /\ NoDup sb'
      /\ (forall d, In d sb' -> In d sb)
      /\ (forall d, In d sb -> ~ In d copy -> In d sb')
      /\ (forall d g, In d sb -> gates_of table d g ->
            Py.issubset g gates = false -> In d sb')
      /\ (broke = false ->
          forall d g, In d copy -> gates_of table d g ->
            (Py.issubset g gates = true -> ~ In d sb')
            /\ (Py.issubset g gates = false -> Py.issubset gates g = false))
      /\ (broke = true ->
          exists d g, In d copy /\ gates_of table d g
            /\ Py.issubset g gates = false /\ Py.issubset gates g = true).
Proof.
  induction copy as [| base rest IH]; intros sb Hndc Hnds Hsub Hget.
  - exists sb, false. simpl.
    repeat split; auto; try discriminate; simpl in *; contradiction.
  - inversion Hndc as [| ? ? Hbase_notin Hndrest]; subst.
    destruct (Hget base (or_introl eq_refl)) as [bg Hbg].
    simpl. unfold gates_of in Hbg. rewrite Hbg. simpl.
    destruct (Py.issubset bg gates) eqn:Esub.
    + (* the handle is removed *)
      destruct (remove_spec sb base (Hsub base (or_introl eq_refl)) Hnds)
        as [sb1 [Hrem [Hnd1 Hiff]]].
      rewrite Hrem. simpl.
      destruct (IH sb1 Hndrest Hnd1) as
        [sb' [broke [Hscan [Hnd' [Hin' [Hkeep [Hkeepg [Hfull Hbrk]]]]]]]].
      { intros d Hd. apply Hiff. split; [apply Hsub; now right |].
        intros ->. contradiction. }
      { intros d Hd. apply Hget. now right. }
      exists sb', broke. split; [exact Hscan |]. split; [exact Hnd' |].
      split; [| split; [| split; [| split]]].
      * intros d Hd. apply Hin' in Hd. apply Hiff in Hd. tauto.
      * intros d Hd Hnot. apply Hkeep.
        -- apply Hiff. split; [exact Hd |]. intros ->. apply Hnot. now left.
        -- intros Hr. apply Hnot. now right.
      * intros d g Hd Hg Hns. apply (Hkeepg d g); auto.
        apply Hiff. split; [exact Hd |]. intros ->.
        unfold gates_of in Hg. rewrite Hbg in Hg. inversion Hg; subst.
        congruence.
      * intros Hb d g [<- | Hd] Hg.
        -- unfold gates_of in Hg. rewrite Hbg in Hg. inversion Hg; subst g.
           split; [| congruence].
           intros _ Hd'. apply Hin' in Hd'. apply Hiff in Hd'. tauto.
        -- exact (Hfull Hb d g Hd Hg).
      * intros Hb. destruct (Hbrk Hb) as [d [g [Hd H']]].
        exists d, g. split; [now right | exact H'].
    + destruct (Py.issubset gates bg) eqn:Esup.
      * (* break *)
        exists sb, true. split; [reflexivity |]. split; [exact Hnds |].
        split; [auto | split; [auto | split; [auto | split]]].
        -- discriminate.
        -- intros _. exists base, bg. split; [now left | auto].
      * (* neither: on to the next handle *)
        destruct (IH sb Hndrest Hnds) as
          [sb' [broke [Hscan [Hnd' [Hin' [Hkeep [Hkeepg [Hfull Hbrk]]]]]]]].
        { intros d Hd. apply Hsub. now right. }
        { intros d Hd. apply Hget. now right. }
        exists sb', broke. split; [exact Hscan |]. split; [exact Hnd' |].
        split; [exact Hin' | split; [| split; [exact Hkeepg | split]]].
        -- intros d Hd Hnot. apply Hkeep; [exact Hd |].
           intros Hr. apply Hnot. now right.
        -- intros Hb d g [<- | Hd] Hg.
           ++ unfold gates_of in Hg. rewrite Hbg in Hg. inversion Hg; subst g.
              split; [congruence | auto].
           ++ exact (Hfull Hb d g Hd Hg).
        -- intros Hb. destruct (Hbrk Hb) as [d [g [Hd H']]].
           exists d, g. split; [now right | exact H'].
Qed.

Variable target : list string.

Lemma keys_before_item pre n (g : list string) post :
  table = pre ++ (n, g) :: post -> ~ In n (map fst pre).
Proof.
  intros Htab Hin. pose proof table_keys as Hnd. rewrite Htab in Hnd.
  rewrite map_app in Hnd. simpl in Hnd.
  apply NoDup_remove_2 in Hnd. apply Hnd. apply in_or_app. now left.
Qed.

Lemma gates_of_item n (g : list string) :
  In (n, g) table -> gates_of table (mkDecomposer n) g.
Proof. intros H. unfold gates_of. simpl. now apply getitem_In. Qed.

Lemma gates_of_selected pre items sel d :
  table = pre ++ items -> selected_inv table target pre sel -> In d sel ->
  exists g, gates_of table d g /\ In (basis d, g) pre
            /\ Py.issubset g target = true.
Proof.
  intros Htab [_ [Hfrom _]] Hd. destruct (Hfrom d Hd) as [g [Hin Hq]].
  exists g. split; [| auto]. unfold gates_of. apply getitem_In; auto.
  rewrite Htab. apply in_or_app. now left.
Qed.

Lemma gates_of_fun d g1 g2 :
  gates_of table d g1 -> gates_of table d g2 -> g1 = g2.
Proof. unfold gates_of. congruence. Qed.

(** One item of the table. *)
Lemma step_spec pre n g post sel :
  table = pre ++ (n, g) :: post ->
  selected_inv table target pre sel ->
  exists sel',
    Init.step table target sel (n, g) = Ok sel'
    /\ selected_inv table target (pre ++ [(n, g)]) sel'
    /\ (forall d, In d sel' -> In d sel \/ d = mkDecomposer n)
    /\ (forall d gd, In d sel -> gates_of table d gd ->
          Py.issubset g target = true -> Py.issubset gd g = true ->
          ~ In d sel')
    /\ (forall d gd, In d sel -> gates_of table d gd ->
          (Py.issubset g target = true -> Py.issubset gd g = false) ->
          In d sel')
    /\ (Py.issubset g target = true ->
        (forall d gd, In d sel -> gates_of table d gd ->
           Py.issubset g gd = true -> Py.issubset gd g = true) ->
        In (mkDecomposer n) sel').
Proof.
  intros Htab Hinv. pose proof Hinv as [Hnd [Hfrom Hanti]].
  assert (Hweaken : forall d, In d sel ->
            exists g0, In (basis d, g0) (pre ++ [(n, g)])
                       /\ Py.issubset g0 target = true).
  { intros d Hd. destruct (Hfrom d Hd) as [g0 [Hin Hq]].
    exists g0. split; [apply in_or_app; now left | exact Hq]. }
  unfold Init.step. destruct (Py.issubset g target) eqn:Equal.
  2:{ exists sel. split; [reflexivity |]. split.
      { split; [exact Hnd | split; [exact Hweaken | exact Hanti]]. }
      split; [auto |]. split; [discriminate |]. split; [auto | discriminate]. }
  assert (Hget : forall d, In d sel -> exists g0, gates_of table d g0).
  { intros d Hd.
    destruct (gates_of_selected pre ((n, g) :: post) sel d Htab Hinv Hd)
      as [g0 [Hg0 _]]. now exists g0. }
  destruct (scan_spec g sel sel Hnd Hnd (fun d H => H) Hget)
    as [sb' [broke [Hscan [Hnd' [Hin' [_ [Hkeepg [Hfull Hbrk]]]]]]]].
  rewrite Hscan. simpl.
  assert (Hnew : ~ In (mkDecomposer n) sel).
  { intros Hd. destruct (Hfrom _ Hd) as [g0 [Hin _]]. simpl in Hin.
    apply (keys_before_item _ _ _ _ Htab). now apply (in_map fst) in Hin. }
  assert (Hgn : gates_of table (mkDecomposer n) g).
  { apply gates_of_item. rewrite Htab. apply in_or_app. right. now left. }
  (* a break contradicts the presence of a handle within [g] *)
  assert (Hnobreak : forall d gd, In d sel -> gates_of table d gd ->
            Py.issubset gd g = true -> broke = false).
  { intros d gd Hd Hgd Hsub. destruct broke; [| reflexivity]. exfalso.
    destruct (Hbrk eq_refl) as [a [ga [Ha [Hga [Hna Hsup]]]]].
    assert (Hda : d <> a).
    { intros ->. rewrite (gates_of_fun _ _ _ Hgd Hga) in Hsub. congruence. }
    pose proof (Hanti d a gd ga Hd Ha Hda Hgd Hga) as Hf.
    rewrite (issubset_trans _ _ _ Hsub Hsup) in Hf. discriminate. }
  destruct broke.
  - (* break: the item adds nothing *)
    exists sb'. split; [reflexivity |]. split.
    { split; [exact Hnd' | split].
      - intros d Hd. apply Hweaken. auto.
      - intros d1 d2 g1 g2 H1 H2. apply Hanti; auto. }
    split; [auto |]. split.
    { intros d gd Hd Hgd _ Hsub.
      pose proof (Hnobreak d gd Hd Hgd Hsub). discriminate. }
    split.
    { intros d gd Hd Hgd Hns. apply (Hkeepg d gd); auto. }
    intros _ Hdom. exfalso.
    destruct (Hbrk eq_refl) as [a [ga [Ha [Hga [Hna Hsup]]]]].
    rewrite (Hdom a ga Ha Hga Hsup) in Hna. discriminate.
  - (* the loop ran to its end: the else clause appends the new handle *)
    exists (sb' ++ [mkDecomposer n]). split; [reflexivity |]. split.
    { split; [| split].
      - apply NoDup_app; [exact Hnd' | repeat constructor; simpl; tauto |].
        intros d Hd [<- | []]. apply Hnew. auto.
      - intros d Hd. apply in_app_or in Hd. destruct Hd as [Hd | [<- | []]].
        + apply Hweaken. auto.
        + exists g. split; [apply in_or_app; right; now left | exact Equal].
      - intros d1 d2 g1 g2 H1 H2 Hne Hg1 Hg2.
        apply in_app_or in H1. apply in_app_or in H2.
        destruct H1 as [H1 | [<- | []]]; destruct H2 as [H2 | [<- | []]].
        + apply (Hanti d1 d2); auto.
        + rewrite (gates_of_fun _ _ _ Hg2 Hgn).
          destruct (Py.issubset g1 g) eqn:E; [| reflexivity].
          exfalso. exact (proj1 (Hfull eq_refl d1 g1 (Hin' _ H1) Hg1) E H1).
        + rewrite (gates_of_fun _ _ _ Hg1 Hgn).
          destruct (Py.issubset g2 g) eqn:E.
          * exfalso.
            exact (proj1 (Hfull eq_refl d2 g2 (Hin' _ H2) Hg2) E H2).
          * exact (proj2 (Hfull eq_refl d2 g2 (Hin' _ H2) Hg2) E).
        + congruence. }
    split.
    { intros d Hd. apply in_app_or in Hd.
      destruct Hd as [Hd | [<- | []]]; auto. }
    split.
    { intros d gd Hd Hgd _ Hsub Hd'. apply in_app_or in Hd'.
      destruct Hd' as [Hd' | [<- | []]].
      - exact (proj1 (Hfull eq_refl d gd Hd Hgd) Hsub Hd').
      - exact (Hnew Hd). }
    split.
    { intros d gd Hd Hgd Hns. apply in_or_app. left.
      apply (Hkeepg d gd); auto. }
    intros _ _. apply in_or_app. right. now left.
Qed.

Lemma loop_app items1 items2 sel :
  Init.loop table target (items1 ++ items2) sel
  = (sel' <- Init.loop table target items1 sel ;;
     Init.loop table target items2 sel').
Proof.
  revert sel. induction items1 as [| item items1 IH]; intros sel; simpl.
  - reflexivity.
  - destruct (Init.step table target sel item) as [sel1 | e]; simpl.
    + apply IH.
    + reflexivity.
Qed.

(** A stretch [items] of the table, visited after [pre]. *)
Lemma loop_spec :
  forall items pre post sel,
    table = pre ++ items ++ post ->
    selected_inv table target pre sel ->
    exists sel',
      Init.loop table target items sel = Ok sel'
      /\ selected_inv table target (pre ++ items) sel'
      /\ (forall d, In d sel' -> In d sel \/ In (basis d) (map fst items))
      /\ (forall d gd, In d sel -> gates_of table d gd ->
            (forall n g, In (n, g) items -> Py.issubset g target = true ->
                         Py.issubset gd g = false) ->
            In d sel').
Proof.
  induction items as [| [n g] items IH]; intros pre post sel Htab Hinv.
  - exists sel. rewrite app_nil_r. simpl. repeat split; auto; apply Hinv.
  - simpl in Htab.
    destruct (step_spec pre n g (items ++ post) sel Htab Hinv)
      as [sel1 [Hstep [Hinv1 [Hfrom1 [_ [Hkeep1 _]]]]]].
    assert (Htab' : table = (pre ++ [(n, g)]) ++ items ++ post).
    { rewrite <- app_assoc. exact Htab. }
    destruct (IH (pre ++ [(n, g)]) post sel1 Htab' Hinv1)
      as [sel' [Hloop [Hinv' [Hfrom' Hkeep']]]].
    exists sel'. cbn [Init.loop]. rewrite Hstep. cbn [bind].
    split; [exact Hloop |]. split.
    { rewrite <- app_assoc in Hinv'. exact Hinv'. }
    split.
    + intros d Hd. destruct (Hfrom' d Hd) as [H1 | H1].
      * destruct (Hfrom1 d H1) as [H0 | ->]; [now left |].
        right. simpl. now left.
      * right. simpl. now right.
    + intros d gd Hd Hgd Hns. apply (Hkeep' d gd).
      * apply (Hkeep1 d gd Hd Hgd). intros Hq.
        apply (Hns n g); [now left | exact Hq].
      * exact Hgd.
      * intros n' g' Hin. apply (Hns n' g'). now right.
Qed.

Lemma selected_inv_nil : selected_inv table target [] [].
Proof.
  split; [constructor | split].
  - intros d [].
  - intros d1 d2 g1 g2 [].
Qed.

End SelectorFacts.

(** C3. Whatever gate names are configured, the constructor raises nothing,
    and in the list of bases it selects no two distinct handles are such
    that the gates of one are a subset of the gates of the other; each
    selected handle is listed once, its gates are those the table gives it,
    and they lie within the configured names. *)
Theorem selected_bases_have_no_subset_pair
    (table : EulerBasisGates) (configured : option (list string)) :
  NoDup (map fst table) ->
  exists self_basis,
    Init.init table configured = Ok self_basis
    /\ forall sel, self_basis = Some sel ->
         NoDup sel
         /\ (forall d, In d sel ->
               exists g, gates_of table d g /\ In (basis d, g) table
                         /\ Py.issubset g (match configured with Some t => t | None => [] end) = true)
         /\ (forall d1 d2 g1 g2,
               In d1 sel -> In d2 sel -> d1 <> d2 ->
               gates_of table d1 g1 -> gates_of table d2 g2 ->
               Py.issubset g1 g2 = false).
Proof.
  intros Hkeys. destruct configured as [[| t0 target] |].
  - exists None. split; [reflexivity | discriminate].
  - destruct (loop_spec table Hkeys (t0 :: target) table [] [] [])
      as [sel [Hloop [Hinv _]]].
    + now rewrite app_nil_r.
    + apply selected_inv_nil.
    + exists (Some sel). unfold Init.init. rewrite Hloop. simpl.
      split; [reflexivity |]. intros sel0 Heq. inversion Heq; subst sel0.
      simpl in Hinv. destruct Hinv as [Hnd [Hfrom Hanti]].
      split; [exact Hnd | split; [| exact Hanti]].
      intros d Hd. destruct (Hfrom d Hd) as [g [Hin Hq]].
      exists g. split; [| split; [exact Hin | exact Hq]]. unfold gates_of.
      now apply getitem_In.
  - exists None. split; [reflexivity | discriminate].
Qed.

Lemma selected_bases_have_no_subset_pair_witness :
  NoDup (map fst example_euler_basis_gates)
  /\ exists self_basis,
       Init.init example_euler_basis_gates (Some ["rz"; "rx"; "ry"; "cx"])
       = Ok self_basis
       /\ forall sel, self_basis = Some sel ->
            NoDup sel
            /\ (forall d, In d sel ->
                  exists g, gates_of example_euler_basis_gates d g
                            /\ In (basis d, g) example_euler_basis_gates
                            /\ Py.issubset g ["rz"; "rx"; "ry"; "cx"] = true)
            /\ (forall d1 d2 g1 g2,
                  In d1 sel -> In d2 sel -> d1 <> d2 ->
                  gates_of example_euler_basis_gates d1 g1 ->
                  gates_of example_euler_basis_gates d2 g2 ->
                  Py.issubset g1 g2 = false).
Proof.
  assert (H : NoDup (map fst example_euler_basis_gates)) by nodup_literals.
  split; [exact H |].
  exact (selected_bases_have_no_subset_pair
           example_euler_basis_gates (Some ["rz"; "rx"; "ry"; "cx"]) H).
Defined.

(** C4, as the code has it. When two bases of the table have the same gates
    and both fit the configured names, the one visited first is never in the
    selected list: visiting the later one removes it, because the test
    "the selected basis's gates are a subset of the new one's" comes first
    and holds for equal sets. The later one is selected whenever no fitting
    basis has strictly more gates and no fitting basis visited after it has
    gates containing its own. *)
Theorem equal_gates_later_basis_replaces_earlier
    (table : EulerBasisGates) (target : list string)
    (pre mid post : list (string * list string))
    (n1 n2 : string) (g1 g2 : list string) :
  NoDup (map fst table) ->
  table = pre ++ (n1, g1) :: mid ++ (n2, g2) :: post ->
  target <> [] ->
  Py.issubset g1 g2 = true -> Py.issubset g2 g1 = true ->
  Py.issubset g1 target = true -> Py.issubset g2 target = true ->
  exists sel,
    Init.init table (Some target) = Ok (Some sel)
    /\ ~ In (mkDecomposer n1) sel
    /\ ((forall n g, In (n, g) table -> Py.issubset g target = true ->
           Py.issubset g2 g = true -> Py.issubset g g2 = true) ->
        (forall n g, In (n, g) post -> Py.issubset g target = true ->
           Py.issubset g2 g = false) ->
        In (mkDecomposer n2) sel).
Proof.
  intros Hkeys Htab Hne Hs12 Hs21 Hq1 Hq2.
  set (P := pre ++ (n1, g1) :: mid).
  assert (HtabP : table = P ++ (n2, g2) :: post).
  { rewrite Htab. unfold P. rewrite <- app_assoc. reflexivity. }
  assert (Hn1 : ~ In n1 (map fst (mid ++ (n2, g2) :: post))).
  { pose proof Hkeys as Hnd. rewrite Htab, map_app in Hnd. simpl in Hnd.
    apply NoDup_remove_2 in Hnd. intros Hin. apply Hnd.
    apply in_or_app. now right. }
  assert (Hn12 : n1 <> n2).
  { intros ->. apply Hn1. rewrite map_app. apply in_or_app. right. now left. }
  assert (Hn1post : ~ In n1 (map fst post)).
  { intros Hin. apply Hn1. rewrite map_app. apply in_or_app. right.
    now right. }
  assert (Hg1 : gates_of table (mkDecomposer n1) g1).
  { apply gates_of_item; [exact Hkeys |]. rewrite Htab.
    apply in_or_app. right. now left. }
  assert (Hg2 : gates_of table (mkDecomposer n2) g2).
  { apply gates_of_item; [exact Hkeys |]. rewrite HtabP.
    apply in_or_app. right. now left. }
  destruct (loop_spec table Hkeys target P [] ((n2, g2) :: post) [])
    as [selP [HloopP [HinvP _]]];
    [exact HtabP | apply selected_inv_nil |].
  simpl in HinvP.
  destruct (step_spec table Hkeys target P n2 g2 post selP HtabP HinvP)
    as [sel2 [Hstep [Hinv2 [Hfrom2 [Hrem2 [_ Hadd2]]]]]].
  destruct (loop_spec table Hkeys target post (P ++ [(n2, g2)]) [] sel2)
    as [sel [Hloop [_ [Hfrom Hkeep]]]];
    [rewrite app_nil_r, <- app_assoc; exact HtabP | exact Hinv2 |].
  assert (Hrun : Init.loop table target (P ++ (n2, g2) :: post) [] = Ok sel).
  { rewrite loop_app, HloopP. cbn [bind Init.loop].
    rewrite Hstep. cbn [bind]. exact Hloop. }
  rewrite <- HtabP in Hrun.
  exists sel. split; [| split].
  - unfold Init.init. destruct target as [| t0 target']; [contradiction |].
    rewrite Hrun. reflexivity.
  - intros Hin. destruct (Hfrom _ Hin) as [Hin2 | Hpost];
      [| exact (Hn1post Hpost)].
    destruct (Hfrom2 _ Hin2) as [HinP | Heq];
      [| inversion Heq; contradiction].
    exact (Hrem2 _ g1 HinP Hg1 Hq2 Hs12 Hin2).
  - intros Hstrict Hlater.
    apply (Hkeep _ g2); [| exact Hg2 | exact Hlater].
    apply Hadd2; [exact Hq2 |].
    intros d gd Hd Hgd Hsup.
    destruct (gates_of_selected table Hkeys target P ((n2, g2) :: post)
                selP d HtabP HinvP Hd) as [g' [Hg' [Hin' Hq']]].
    rewrite (gates_of_fun _ _ _ _ Hgd Hg') in *.
    apply (Hstrict (basis d) g'); auto.
    rewrite HtabP. apply in_or_app. now left.
Qed.

Lemma equal_gates_later_basis_replaces_earlier_witness :
  (NoDup (map fst twin_euler_basis_gates)
   /\ twin_euler_basis_gates
      = [] ++ ("ZXZ", ["rz"; "rx"]) :: [] ++ ("XZX", ["rx"; "rz"]) :: []
   /\ ["rz"; "rx"; "cx"] <> []
   /\ Py.issubset ["rz"; "rx"] ["rx"; "rz"] = true
   /\ Py.issubset ["rx"; "rz"] ["rz"; "rx"] = true
   /\ Py.issubset ["rz"; "rx"] ["rz"; "rx"; "cx"] = true
   /\ Py.issubset ["rx"; "rz"] ["rz"; "rx"; "cx"] = true)
  /\ exists sel,
       Init.init twin_euler_basis_gates (Some ["rz"; "rx"; "cx"])
       = Ok (Some sel)
       /\ ~ In (mkDecomposer "ZXZ") sel.
Proof.
  assert (H : NoDup (map fst twin_euler_basis_gates)) by nodup_literals.
  split.
  - repeat split; try reflexivity; [exact H | discriminate].
  - destruct (equal_gates_later_basis_replaces_earlier
                twin_euler_basis_gates ["rz"; "rx"; "cx"] [] [] []
                "ZXZ" "XZX" ["rz"; "rx"] ["rx"; "rz"] H eq_refl
                ltac:(discriminate) eq_refl eq_refl eq_refl eq_refl)
      as [sel [Hinit [Hnot _]]].
    exists sel. split; [exact Hinit | exact Hnot].
Defined.

Example twins_select_the_later :
  exists sel,
    Init.init twin_euler_basis_gates (Some ["rz"; "rx"; "cx"]) = Ok (Some sel)
    /\ ~ In (mkDecomposer "ZXZ") sel /\ In (mkDecomposer "XZX") sel.
Proof.
  exists [mkDecomposer "XZX"]. split; [reflexivity | split].
  - intros [H | []]. discriminate H.
  - now left.
Qed.

(** C4, as the specification words it, fails: with two bases of equal gates
    the constructor keeps the later one, not the first. *)
Lemma first_of_equal_bases_is_not_kept :
  Init.init twin_euler_basis_gates (Some ["rz"; "rx"])
  = Ok (Some [mkDecomposer "XZX"])
  /\ ~ (forall table target pre mid post n1 n2 g1 g2,
          NoDup (map fst table) ->
          table = pre ++ (n1, g1) :: mid ++ (n2, g2) :: post ->
          target <> [] ->
          Py.issubset g1 g2 = true -> Py.issubset g2 g1 = true ->
          Py.issubset g1 target = true -> Py.issubset g2 target = true ->
          exists sel,
            Init.init table (Some target) = Ok (Some sel)
            /\ In (mkDecomposer n1) sel
            /\ ~ In (mkDecomposer n2) sel).
Proof.
  split; [reflexivity |].
  intros Hclaim.
  destruct (Hclaim twin_euler_basis_gates ["rz"; "rx"] [] [] []
              "ZXZ" "XZX" ["rz"; "rx"] ["rx"; "rz"])
    as [sel [Hinit [_ Hnot]]];
    try reflexivity; try discriminate; [nodup_literals |].
  simpl in Hinit. inversion Hinit; subst sel.
  apply Hnot. now left.
Qed.

(** ** The run optimizer *)

Lemma min_from_spec {A : Type} (key : A -> nat) :
  forall l best,
    exists i,
      nth_error (best :: l) i = Some (Py.min_from key best l)
      /\ (forall j x, nth_error (best :: l) j = Some x ->
            key (Py.min_from key best l) <= key x)
      /\ (forall j x, j < i -> nth_error (best :: l) j = Some x ->
            key (Py.min_from key best l) < key x).
Proof.
  induction l as [| x l IH]; intros best.
  - exists 0. simpl. split; [reflexivity | split].
    + intros [| j] y Hj; simpl in Hj.
      * inversion Hj; subst. lia.
      * destruct j; discriminate.
    + intros j y Hj. lia.
  - simpl Py.min_from. destruct (Nat.ltb (key x) (key best)) eqn:E.
    + apply Nat.ltb_lt in E.
      destruct (IH x) as [i [Hi [Hle Hlt]]].
      exists (S i). split; [exact Hi | split].
      * intros [| j] y Hj.
        -- simpl in Hj. inversion Hj; subst y.
           pose proof (Hle 0 x eq_refl). lia.
        -- exact (Hle j y Hj).
      * intros [| j] y Hji Hj.
        -- simpl in Hj. inversion Hj; subst y.
           pose proof (Hle 0 x eq_refl). lia.
        -- apply (Hlt j y); [lia | exact Hj].
    + apply Nat.ltb_ge in E.
      destruct (IH best) as [i [Hi [Hle Hlt]]].
      destruct i as [| i].
      * exists 0. split; [exact Hi | split].
        -- intros [| [| j]] y Hj.
           ++ exact (Hle 0 y Hj).
           ++ simpl in Hj. inversion Hj; subst y.
              pose proof (Hle 0 best eq_refl). lia.
           ++ exact (Hle (S j) y Hj).
        -- intros j y Hj. lia.
      * exists (S (S i)). split; [exact Hi | split].
        -- intros [| [| j]] y Hj.
           ++ exact (Hle 0 y Hj).
           ++ simpl in Hj. inversion Hj; subst y.
              pose proof (Hle 0 best eq_refl). lia.
           ++ exact (Hle (S j) y Hj).
        -- intros [| [| j]] y Hji Hj.
           ++ apply (Hlt 0 y); [lia | exact Hj].
           ++ simpl in Hj. inversion Hj; subst y.
              pose proof (Hlt 0 best ltac:(lia) eq_refl). lia.
           ++ apply (Hlt (S j) y); [lia | exact Hj].
Qed.


Section RunFacts.

Context {L : Linalg} {G : Dag}.

Lemma new_circs_of_map (self_basis : list OneQubitEulerDecomposer)
    (operator : Matrix) :
  Run.new_circs_of self_basis operator
  = map (fun decomposer => call decomposer operator) self_basis.
Proof.
  unfold Run.new_circs_of.
  assert (H : forall acc,
    fold_left (fun new_circs decomposer =>
                 new_circs ++ [call decomposer operator]) self_basis acc
    = acc ++ map (fun decomposer => call decomposer operator) self_basis).
  { induction self_basis as [| d ds IH]; intros acc; simpl.
    - now rewrite app_nil_r.
    - rewrite IH, <- app_assoc. reflexivity. }
  apply H.
Qed.


(** The prelude passes on with the flag set only for a run of one gate, and
    never changes the graph when it passes on. *)
Lemma single_gate_proceed (dag dag' : DAGCircuit) (run : list DAGNode)
    (single_u3 : bool) :
  Run.single_gate dag run = Ok (dag', Proceed single_u3) ->
  dag' = dag /\ run <> [] /\ (single_u3 = true -> List.length run = 1).
Proof.
  unfold Run.single_gate. destruct run as [| run0 [| run1 rest]]; simpl.
  - discriminate.
  - destruct (Nat.ltb 0 (List.length (params (op run0)))
              && array_equal (to_matrix (op run0)) identity_matrix).
    + discriminate.
    + destruct (is_U3Gate (op run0)).
      * destruct (params (op run0)) as [| p0 ps]; simpl; [discriminate |].
        destruct (isclose_0_or_half_pi p0); simpl; intros H; inversion H.
        repeat split; auto. discriminate.
      * simpl. discriminate.
  - intros H. inversion H. repeat split; auto; discriminate.
Qed.

(** Lines 93-100 on a non-empty run with at least one decomposer: the
    operator exists, every decomposer gives one candidate, in order, and
    [min] picks the first of the shortest. *)
Lemma optimize_spec (self_basis : list OneQubitEulerDecomposer)
    (dag : DAGCircuit) (run : list DAGNode) (single_u3 : bool) :
  self_basis <> [] -> run <> [] ->
  exists run0 operator new_circ i decomposer,
    nth_error run 0 = Some run0
    /\ Run.operator_of run = Ok operator
    /\ Py.min len (Run.new_circs_of self_basis operator) = Ok new_circ
    /\ nth_error self_basis i = Some decomposer
    /\ new_circ = call decomposer operator
    /\ (forall j d, nth_error self_basis j = Some d ->
          len new_circ <= len (call d operator))
    /\ (forall j d, j < i -> nth_error self_basis j = Some d ->
          len new_circ < len (call d operator))
    /\ Run.optimize self_basis dag run single_u3
       = (ok <- Run.accepts run single_u3 new_circ ;;
          if ok then Run.substitute dag run new_circ else Ok dag).
Proof.
  intros Hsb Hrun.
  destruct run as [| run0 rest]; [contradiction |].
  destruct self_basis as [| d0 ds]; [contradiction |].
  set (operator := fold_left (fun operator gate => compose operator (op gate))
                             (skipn 1 (run0 :: rest)) (Operator (op run0))).
  assert (Hop : Run.operator_of (run0 :: rest) = Ok operator) by reflexivity.
  set (f := fun decomposer => call decomposer operator).
  destruct (min_from_spec len (map f ds) (f d0)) as [i [Hi [Hle Hlt]]].
  change (f d0 :: map f ds) with (map f (d0 :: ds)) in Hi, Hle, Hlt.
  set (new_circ := Py.min_from len (f d0) (map f ds)) in *.
  assert (Hmin : Py.min len (Run.new_circs_of (d0 :: ds) operator)
                 = Ok new_circ).
  { rewrite new_circs_of_map. reflexivity. }
  rewrite nth_error_map in Hi.
  destruct (nth_error (d0 :: ds) i) as [d |] eqn:Hd; [| discriminate].
  simpl in Hi. inversion Hi as [Hnc].
  exists run0, operator, new_circ, i, d.
  split; [reflexivity |]. split; [exact Hop |]. split; [exact Hmin |].
  split; [exact Hd |]. split; [symmetry; exact Hnc |]. split; [| split].
  - intros j d' Hj. apply (Hle j). rewrite nth_error_map, Hj. reflexivity.
  - intros j d' Hji Hj. apply (Hlt j); [exact Hji |].
    rewrite nth_error_map, Hj. reflexivity.
  - unfold Run.optimize. rewrite Hop. cbn [bind].
    rewrite new_circs_of_map. reflexivity.
Qed.

(** The guard of lines 101-102 on a non-empty run, with the flag set only
    for a run of one gate: it raises nothing, and it holds exactly when the
    candidate is strictly shorter or the flag is set and the candidate's
    first gate is not named u3. *)
Lemma accepts_spec (run : list DAGNode) (single_u3 : bool)
    (new_circ : QuantumCircuit) :
  run <> [] -> (single_u3 = true -> List.length run = 1) ->
  exists ok,
    Run.accepts run single_u3 new_circ = Ok ok
    /\ (ok = true <->
         len new_circ < List.length run
         \/ (single_u3 = true
             /\ exists first, nth_error (data new_circ) 0 = Some first
                              /\ name first <> "u3")).
Proof.
  intros Hrun Hflag. unfold Run.accepts.
  destruct (Nat.ltb (len new_circ) (List.length run)) eqn:E.
  - apply Nat.ltb_lt in E. exists true. split; [reflexivity |].
    split; [now left | reflexivity].
  - apply Nat.ltb_ge in E. destruct single_u3.
    + specialize (Hflag eq_refl). unfold len in E.
      destruct (data new_circ) as [| first others] eqn:Hdata;
        [simpl in E; lia |].
      cbn. exists (negb (String.eqb (name first) "u3")).
      split; [reflexivity |].
      destruct (String.eqb (name first) "u3") eqn:En; simpl.
      * apply String.eqb_eq in En. split; [discriminate |].
        intros [Hlt | [_ [first' [Hf Hne]]]].
        -- unfold len in Hlt. rewrite Hdata in Hlt. simpl in Hlt. lia.
        -- inversion Hf; subst. contradiction.
      * apply String.eqb_neq in En. split; [| reflexivity].
        intros _. right. split; [reflexivity |].
        exists first. split; [reflexivity | exact En].
    + exists false. split; [reflexivity |]. split; [discriminate |].
      intros [Hlt | [Hf _]]; [lia | discriminate].
Qed.

Lemma body_proceed (self_basis : list OneQubitEulerDecomposer)
    (dag dag' : DAGCircuit) (run : list DAGNode) (single_u3 : bool) :
  Run.single_gate dag run = Ok (dag', Proceed single_u3) ->
  Run.body self_basis dag run = Run.optimize self_basis dag run single_u3.
Proof.
  intros H. destruct (single_gate_proceed dag dag' run single_u3 H) as [-> _].
  unfold Run.body. rewrite H. reflexivity.
Qed.

Lemma substitute_nonempty (dag : DAGCircuit) (run : list DAGNode)
    (run0 : DAGNode) (new_circ : QuantumCircuit) :
  nth_error run 0 = Some run0 ->
  Run.substitute dag run new_circ
  = Ok (fold_left remove_op_node (skipn 1 run)
          (substitute_node_with_dag dag run0 (circuit_to_dag new_circ))).
Proof.
  intros H. unfold Run.substitute, Py.index. rewrite H. reflexivity.
Qed.

(** The loop body either returns a graph or fails on [run[0]] (an empty
    run) or on [params[0]] (a U3Gate without parameters). *)
Lemma body_outcome (self_basis : list OneQubitEulerDecomposer)
    (dag : DAGCircuit) (run : list DAGNode) :
  (exists dag', Run.body self_basis dag run = Ok dag')
  \/ Run.body self_basis dag run = Raise (IndexError run_0)
  \/ Run.body self_basis dag run = Raise (IndexError params_0).
Proof.
  destruct (Run.single_gate dag run) as [[dag' fl] | e] eqn:Hsg.
  - destruct fl as [| single_u3].
    + left. exists dag'. unfold Run.body. rewrite Hsg. reflexivity.
    + rewrite (body_proceed self_basis dag dag' run single_u3 Hsg).
      destruct (single_gate_proceed dag dag' run single_u3 Hsg)
        as [_ [Hrun Hflag]].
      destruct self_basis as [| d0 ds].
      * left. exists dag. destruct run as [| run0 rest]; [contradiction |].
        reflexivity.
      * destruct (optimize_spec (d0 :: ds) dag run single_u3
                    ltac:(discriminate) Hrun)
          as [run0 [m [c [i [d [Hrun0 [_ [_ [_ [_ [_ [_ Hopt]]]]]]]]]]]].
        destruct (accepts_spec run single_u3 c Hrun Hflag) as [ok [Hok _]].
        rewrite Hopt, Hok. cbn [bind]. left. destruct ok.
        -- rewrite (substitute_nonempty dag run run0 c Hrun0). eauto.
        -- eauto.
  - unfold Run.body. rewrite Hsg. cbn [bind].
    unfold Run.single_gate in Hsg.
    destruct run as [| run0 [| run1 rest]]; simpl in Hsg.
    + inversion Hsg. right. now left.
    + destruct (Nat.ltb 0 (List.length (params (op run0)))
                && array_equal (to_matrix (op run0)) identity_matrix);
        [discriminate |].
      destruct (is_U3Gate (op run0)); simpl in Hsg.
      * destruct (params (op run0)) as [| p0 ps]; simpl in Hsg.
        -- inversion Hsg. right. now right.
        -- destruct (isclose_0_or_half_pi p0); discriminate.
      * discriminate.
    + discriminate.
Qed.

Lemma for_runs_outcome (self_basis : list OneQubitEulerDecomposer) :
  forall runs dag,
    (exists dag', Run.for_runs self_basis runs dag = Ok dag')
    \/ Run.for_runs self_basis runs dag = Raise (IndexError run_0)
    \/ Run.for_runs self_basis runs dag = Raise (IndexError params_0).
Proof.
  induction runs as [| run runs IH]; intros dag; simpl.
  - left. eauto.
  - destruct (body_outcome self_basis dag run) as [[dag' H] | [H | H]];
      rewrite H; cbn [bind]; auto.
Qed.

(** C7. For a run [run0 :: rest] that reaches line 93 and a non-empty list
    of selected decomposers. The operator of lines 94-96 is the matrix of
    the first gate composed, from left to right, with every later gate of
    the run. The candidates are the decomposers' outputs on that combined
    matrix, one each, in the list's order; [min] returns one of them, no
    candidate is shorter than it, and every candidate before it is strictly
    longer; that candidate is the one the guard and the substitution are
    applied to. *)
Theorem chosen_candidate_is_first_shortest
    (self_basis : list OneQubitEulerDecomposer)
    (dag : DAGCircuit) (run0 : DAGNode) (rest : list DAGNode)
    (single_u3 : bool) :
  self_basis <> [] ->
  let operator :=
    fold_left (fun operator gate => compose operator (op gate))
              rest (Operator (op run0)) in
  Run.operator_of (run0 :: rest) = Ok operator
  /\ Run.new_circs_of self_basis operator
     = map (fun decomposer => call decomposer operator) self_basis
  /\ List.length (Run.new_circs_of self_basis operator)
     = List.length self_basis
  /\ exists new_circ i decomposer,
       Py.min len (Run.new_circs_of self_basis operator) = Ok new_circ
       /\ nth_error self_basis i = Some decomposer
       /\ new_circ = call decomposer operator
       /\ (forall j d, nth_error self_basis j = Some d ->
             len new_circ <= len (call d operator))
       /\ (forall j d, j < i -> nth_error self_basis j = Some d ->
             len new_circ < len (call d operator))
       /\ Run.optimize self_basis dag (run0 :: rest) single_u3
          = (ok <- Run.accepts (run0 :: rest) single_u3 new_circ ;;
             if ok then Run.substitute dag (run0 :: rest) new_circ
             else Ok dag).
Proof.
  intros Hsb operator.
  destruct (optimize_spec self_basis dag (run0 :: rest) single_u3 Hsb
              ltac:(discriminate))
    as [r0 [m [c [i [d [_ [Hop [Hmin [Hd [Hc [Hle [Hlt Hopt]]]]]]]]]]]].
  assert (Hm : m = operator).
  { unfold Run.operator_of in Hop. cbn [Py.index nth_error bind skipn] in Hop.
    inversion Hop. reflexivity. }
  subst m.
  split; [reflexivity |].
  split; [apply new_circs_of_map |].
  split; [rewrite new_circs_of_map; apply length_map |].
  exists c, i, d. repeat split; assumption.
Qed.

(** C2. For a run that reaches line 93 with the flag [single_u3], and a
    non-empty list of decomposers: the guard holds exactly when the chosen
    candidate has fewer gates than the run, or the flag is set and the
    candidate's first gate is not named u3; when it holds the body returns
    the graph with the run's first node substituted by the candidate and
    the other nodes removed, and otherwise the graph it was given. *)
Theorem substituted_iff_shorter_or_special
    (self_basis : list OneQubitEulerDecomposer)
    (dag dag' : DAGCircuit) (run : list DAGNode) (single_u3 : bool) :
  self_basis <> [] ->
  Run.single_gate dag run = Ok (dag', Proceed single_u3) ->
  exists run0 operator new_circ,
    nth_error run 0 = Some run0
    /\ Run.operator_of run = Ok operator
    /\ Py.min len (Run.new_circs_of self_basis operator) = Ok new_circ
    /\ let accepted :=
         len new_circ < List.length run
         \/ (single_u3 = true
             /\ exists first, nth_error (data new_circ) 0 = Some first
                              /\ name first <> "u3") in
       (Run.accepts run single_u3 new_circ = Ok true <-> accepted)
       /\ (accepted ->
           Run.body self_basis dag run
           = Ok (fold_left remove_op_node (skipn 1 run)
                   (substitute_node_with_dag dag run0
                      (circuit_to_dag new_circ))))
       /\ (~ accepted -> Run.body self_basis dag run = Ok dag).
Proof.
  intros Hsb Hsg.
  destruct (single_gate_proceed dag dag' run single_u3 Hsg)
    as [_ [Hrun Hflag]].
  destruct (optimize_spec self_basis dag run single_u3 Hsb Hrun)
    as [run0 [m [c [i [d [Hrun0 [Hop [Hmin [_ [_ [_ [_ Hopt]]]]]]]]]]]].
  destruct (accepts_spec run single_u3 c Hrun Hflag) as [ok [Hok Hiff]].
  exists run0, m, c. split; [exact Hrun0 |]. split; [exact Hop |].
  split; [exact Hmin |]. cbv zeta.
  rewrite (body_proceed self_basis dag dag' run single_u3 Hsg), Hopt, Hok.
  cbn [bind]. split; [| split].
  - rewrite <- Hiff. split; [intros H; now inversion H | now intros ->].
  - intros Hacc. apply Hiff in Hacc. subst ok.
    apply substitute_nonempty. exact Hrun0.
  - intros Hnot. destruct ok; [| reflexivity].
    exfalso. apply Hnot, Hiff. reflexivity.
Qed.

(** C10. The subscript [new_circ.data[0]] of line 102 is never out of
    range: neither the loop body on any run nor the whole pass raises the
    IndexError of that site. The flag is set only for a run of one gate;
    with the flag unset the guard is the length comparison alone; with the
    flag set on a run of one gate, either the candidate is shorter (the
    subscript is not evaluated) or the candidate has a first gate. *)
Theorem candidate_first_gate_in_bounds
    (self_basis : option (list OneQubitEulerDecomposer)) (dag : DAGCircuit) :
  (forall decomposers run,
     Run.body decomposers dag run <> Raise (IndexError data_0))
  /\ Run.run self_basis dag <> Raise (IndexError data_0)
  /\ (forall run dag',
        Run.single_gate dag run = Ok (dag', Proceed true) ->
        List.length run = 1)
  /\ (forall run new_circ,
        Run.accepts run false new_circ
        = Ok (Nat.ltb (len new_circ) (List.length run)))
  /\ (forall run new_circ,
        List.length run = 1 ->
        Run.accepts run true new_circ = Ok true
        \/ exists first,
             nth_error (data new_circ) 0 = Some first
             /\ Run.accepts run true new_circ
                = Ok (negb (String.eqb (name first) "u3"))).
Proof.
  split; [| split; [| split; [| split]]].
  - intros ds run.
    destruct (body_outcome ds dag run) as [[dag' H] | [H | H]];
      rewrite H; discriminate.
  - destruct self_basis as [[| d0 ds] |]; simpl; try discriminate.
    destruct (for_runs_outcome (d0 :: ds) (collect_1q_runs dag) dag)
      as [[dag' H] | [H | H]]; rewrite H; discriminate.
  - intros run dag' H.
    exact (proj2 (proj2 (single_gate_proceed dag dag' run true H)) eq_refl).
  - intros run c. unfold Run.accepts.
    destruct (Nat.ltb (len c) (List.length run)); reflexivity.
  - intros run c Hlen. unfold Run.accepts.
    destruct (Nat.ltb (len c) (List.length run)) eqn:E; [now left |].
    right. apply Nat.ltb_ge in E. unfold len in E.
    destruct (data c) as [| first others]; [simpl in E; lia |].
    exists first. split; reflexivity.
Qed.

(** C5. A run of one gate that has at least one parameter and whose matrix
    is equal to the identity: the prelude removes the node and leaves the
    body through [continue]; the body returns the graph without the node,
    and the loop goes on with the next run. *)
Theorem single_identity_gate_is_removed
    (self_basis : list OneQubitEulerDecomposer)
    (dag : DAGCircuit) (node : DAGNode) (runs : list (list DAGNode)) :
  0 < List.length (params (op node)) ->
  array_equal (to_matrix (op node)) identity_matrix = true ->
  Run.single_gate dag [node] = Ok (remove_op_node dag node, Continue)
  /\ Run.body self_basis dag [node] = Ok (remove_op_node dag node)
  /\ Run.for_runs self_basis ([node] :: runs) dag
     = Run.for_runs self_basis runs (remove_op_node dag node).
Proof.
  intros Hparams Hid.
  assert (Hsg : Run.single_gate dag [node]
                = Ok (remove_op_node dag node, Continue)).
  { unfold Run.single_gate. simpl.
    apply Nat.ltb_lt in Hparams. rewrite Hparams, Hid. reflexivity. }
  assert (Hbody : Run.body self_basis dag [node]
                  = Ok (remove_op_node dag node)).
  { unfold Run.body. rewrite Hsg. reflexivity. }
  split; [exact Hsg | split; [exact Hbody |]].
  cbn [Run.for_runs]. rewrite Hbody. reflexivity.
Qed.

(** C6. A run of one gate that is not removed as an identity (a U3Gate
    carrying its parameters): the flag is set, and the body goes on to line
    93, exactly when the gate is a U3Gate and its first parameter is within
    1e-12 of 0 or of pi/2; otherwise the body leaves through [continue] and
    returns the graph it was given. *)
Theorem single_gate_special_iff_u3_near_0_or_half_pi
    (self_basis : list OneQubitEulerDecomposer)
    (dag : DAGCircuit) (node : DAGNode) :
  Nat.ltb 0 (List.length (params (op node)))
  && array_equal (to_matrix (op node)) identity_matrix = false ->
  (is_U3Gate (op node) = true -> params (op node) <> []) ->
  let special :=
    is_U3Gate (op node) = true
    /\ exists p0, nth_error (params (op node)) 0 = Some p0
         /\ (Py.isclose p0 0%float atol_1e_12 = true
             \/ Py.isclose p0 (PrimFloat.div np_pi 2%float) atol_1e_12
                = true) in
  (special -> Run.single_gate dag [node] = Ok (dag, Proceed true))
  /\ (~ special ->
      Run.single_gate dag [node] = Ok (dag, Continue)
      /\ Run.body self_basis dag [node] = Ok dag).
Proof.
  intros Hnotid Hu3 special.
  assert (Hclose : forall p,
            isclose_0_or_half_pi p = true <->
            Py.isclose p 0%float atol_1e_12 = true
            \/ Py.isclose p (PrimFloat.div np_pi 2%float) atol_1e_12 = true).
  { intros p. unfold isclose_0_or_half_pi. apply orb_true_iff. }
  assert (Hcases :
    (special -> Run.single_gate dag [node] = Ok (dag, Proceed true))
    /\ (~ special -> Run.single_gate dag [node] = Ok (dag, Continue))).
  { assert (Hsg : Run.single_gate dag [node]
                  = (is_special <-
                       (if is_U3Gate (op node) then
                          p0 <- Py.index params_0 (params (op node)) 0 ;;
                          Ok (isclose_0_or_half_pi p0)
                        else Ok false) ;;
                     if is_special then Ok (dag, Proceed true)
                     else Ok (dag, Continue))).
    { unfold Run.single_gate.
      change (Nat.leb (List.length [node]) 1) with true. cbv iota.
      unfold Py.index at 1. change (nth_error [node] 0) with (Some node).
      cbn [bind]. cbv zeta. rewrite Hnotid. reflexivity. }
    rewrite Hsg. clear Hsg. subst special.
    destruct (is_U3Gate (op node)) eqn:Eu3.
    - destruct (params (op node)) as [| p0 ps] eqn:Eparams.
      + exfalso. apply Hu3; reflexivity.
      + unfold Py.index. cbn [nth_error bind].
        destruct (isclose_0_or_half_pi p0) eqn:E.
        * split; [reflexivity |]. intros Hnot. exfalso. apply Hnot.
          split; [reflexivity |]. exists p0.
          split; [reflexivity | apply Hclose, E].
        * split; [| reflexivity].
          intros [_ [p [Hp Hc]]]. inversion Hp; subst p.
          apply Hclose in Hc. congruence.
    - cbn [bind]. split; [| reflexivity]. intros [H _]. discriminate. }
  destruct Hcases as [Hyes Hno]. split; [exact Hyes |].
  intros Hnot. split; [exact (Hno Hnot) |].
  unfold Run.body. rewrite (Hno Hnot). reflexivity.
Qed.

(** How an empty selection arises: nothing configured, or no basis of the
    table within the configured names. *)
Lemma init_selects_nothing (table : EulerBasisGates)
    (configured : option (list string)) :
  match configured with
  | None => True
  | Some target =>
      forall n g, In (n, g) table -> Py.issubset g target = false
  end ->
  Init.init table configured = Ok None
  \/ Init.init table configured = Ok (Some []).
Proof.
  destruct configured as [[| t0 target] |]; simpl; auto.
  intros Hnone. right.
  assert (H : forall items,
            (forall n g, In (n, g) items ->
               Py.issubset g (t0 :: target) = false) ->
            Init.loop table (t0 :: target) items [] = Ok []).
  { induction items as [| [n g] items IH]; intros Hitems; simpl.
    - reflexivity.
    - rewrite (Hitems n g (or_introl eq_refl)). simpl.
      apply IH. intros n' g' Hin. apply (Hitems n' g'). now right. }
  rewrite (H table Hnone). reflexivity.
Qed.

(** C8. With no decomposer selected ([self.basis] is [None] or empty), the
    pass returns the graph it was given: no run is collected and no
    mutation is made. *)
Theorem no_decomposer_no_change
    (self_basis : option (list OneQubitEulerDecomposer)) (dag : DAGCircuit) :
  self_basis = None \/ self_basis = Some [] ->
  Run.run self_basis dag = Ok dag.
Proof.
  intros [-> | ->]; reflexivity.
Qed.




(** C1. Let every selected decomposer meet its contract: the effect of the
    circuit it returns for a matrix is equivalent (up to global phase, within
    the tolerance: the relation [equiv]) to that matrix. Take a run
    [run0 :: rest] that reaches line 93. The composed effect of its original
    operations is the matrix of [run0] composed, from left to right, with
    every gate of [rest]; this is the operator lines 94-96 build. The chosen
    candidate is equivalent to that matrix, and the body either returns the
    graph it was given or, the guard holding, the graph in which that
    candidate stands for the run. *)
Theorem accepted_candidate_matches_run_operator
    (equiv : Matrix -> Matrix -> Prop) (effect : QuantumCircuit -> Matrix)
    (self_basis : list OneQubitEulerDecomposer)
    (dag dag' : DAGCircuit) (run0 : DAGNode) (rest : list DAGNode)
    (single_u3 : bool) :
  (forall d m, In d self_basis -> equiv (effect (call d m)) m) ->
  self_basis <> [] ->
  Run.single_gate dag (run0 :: rest) = Ok (dag', Proceed single_u3) ->
  let operator :=
    fold_left (fun operator gate => compose operator (op gate))
              rest (Operator (op run0)) in
  Run.operator_of (run0 :: rest) = Ok operator
  /\ exists new_circ,
       Py.min len (Run.new_circs_of self_basis operator) = Ok new_circ
       /\ equiv (effect new_circ) operator
       /\ ((Run.accepts (run0 :: rest) single_u3 new_circ = Ok false
            /\ Run.body self_basis dag (run0 :: rest) = Ok dag)
           \/ (Run.accepts (run0 :: rest) single_u3 new_circ = Ok true
               /\ Run.body self_basis dag (run0 :: rest)
                  = Ok (fold_left remove_op_node rest
                          (substitute_node_with_dag dag run0
                             (circuit_to_dag new_circ))))).
Proof.
  intros Hcontract Hsb Hsg operator.
  destruct (single_gate_proceed dag dag' (run0 :: rest) single_u3 Hsg)
    as [_ [Hrun Hflag]].
  destruct (optimize_spec self_basis dag (run0 :: rest) single_u3 Hsb Hrun)
    as [r0 [m [c [i [d [Hr0 [Hop [Hmin [Hd [Hc [_ [_ Hopt]]]]]]]]]]]].
  assert (Hm : m = operator).
  { unfold Run.operator_of in Hop. cbn [Py.index nth_error bind skipn] in Hop.
    inversion Hop. reflexivity. }
  subst m.
  assert (Hr : r0 = run0) by (simpl in Hr0; congruence). subst r0.
  split; [reflexivity |].
  exists c. split; [exact Hmin |]. split.
  - rewrite Hc. apply Hcontract. eapply nth_error_In. exact Hd.
  - destruct (accepts_spec (run0 :: rest) single_u3 c Hrun Hflag)
      as [ok [Hok _]].
    rewrite (body_proceed self_basis dag dag' (run0 :: rest) single_u3 Hsg),
      Hopt, Hok.
    cbn [bind]. destruct ok.
    + right. split; [reflexivity |].
      rewrite (substitute_nonempty dag (run0 :: rest) run0 c Hr0).
      reflexivity.
    + left. split; reflexivity.
Qed.





End RunFacts.

(** ** The Pauli instance meets the decomposers' contract *)

Lemma pauli_decompose_effect (d : OneQubitEulerDecomposer) (m : Pauli.matrix) :
  Pauli.of_circuit (Pauli.decompose d m) = m.
Proof.
  unfold Pauli.decompose.
  destruct (String.eqb (basis d) "U3"); destruct m as [[|] [|]];
    vm_compute; reflexivity.
Qed.


(** ** Instances of the theorems *)

Lemma chosen_candidate_is_first_shortest_witness :
  [mkDecomposer "U3"; mkDecomposer "U1X"] <> []
  /\ Run.operator_of (L := Pauli.linalg)
       [mkNode 0 Pauli.x; mkNode 1 Pauli.z; mkNode 2 Pauli.x]
     = Ok Pauli.Z
  /\ exists new_circ i decomposer,
       Py.min len
         (Run.new_circs_of (L := Pauli.linalg)
            [mkDecomposer "U3"; mkDecomposer "U1X"] Pauli.Z)
       = Ok new_circ
       /\ nth_error [mkDecomposer "U3"; mkDecomposer "U1X"] i
          = Some decomposer
       /\ new_circ = call (Linalg := Pauli.linalg) decomposer Pauli.Z
       /\ (forall j d,
             nth_error [mkDecomposer "U3"; mkDecomposer "U1X"] j = Some d ->
             len new_circ <= len (call (Linalg := Pauli.linalg) d Pauli.Z)).
Proof.
  split; [discriminate |].
  destruct (chosen_candidate_is_first_shortest
              (L := Pauli.linalg) (G := Wire.wire)
              [mkDecomposer "U3"; mkDecomposer "U1X"]
              [mkNode 0 Pauli.x; mkNode 1 Pauli.z; mkNode 2 Pauli.x]
              (mkNode 0 Pauli.x) [mkNode 1 Pauli.z; mkNode 2 Pauli.x] false
              ltac:(discriminate))
    as [Hop [_ [_ [c [i [d [Hmin [Hd [Hc [Hle _]]]]]]]]]].
  split; [exact Hop |].
  exists c, i, d. repeat split; assumption.
Defined.

Lemma substituted_iff_shorter_or_special_witness :
  ([mkDecomposer "U3"] <> []
   /\ Run.single_gate (L := Pauli.linalg) (G := Wire.wire)
        [mkNode 0 Pauli.x; mkNode 1 Pauli.x]
        [mkNode 0 Pauli.x; mkNode 1 Pauli.x]
      = Ok ([mkNode 0 Pauli.x; mkNode 1 Pauli.x], Proceed false))
  /\ exists run0 operator new_circ,
       nth_error [mkNode 0 Pauli.x; mkNode 1 Pauli.x] 0 = Some run0
       /\ Run.operator_of (L := Pauli.linalg)
            [mkNode 0 Pauli.x; mkNode 1 Pauli.x] = Ok operator
       /\ Py.min len (Run.new_circs_of [mkDecomposer "U3"] operator)
          = Ok new_circ
       /\ (Run.accepts [mkNode 0 Pauli.x; mkNode 1 Pauli.x] false new_circ
           = Ok true
           <-> len new_circ < 2
               \/ (false = true
                   /\ exists first, nth_error (data new_circ) 0 = Some first
                                    /\ name first <> "u3")).
Proof.
  split; [split; [discriminate | reflexivity] |].
  destruct (substituted_iff_shorter_or_special
              (L := Pauli.linalg) (G := Wire.wire)
              [mkDecomposer "U3"]
              [mkNode 0 Pauli.x; mkNode 1 Pauli.x]
              [mkNode 0 Pauli.x; mkNode 1 Pauli.x]
              [mkNode 0 Pauli.x; mkNode 1 Pauli.x] false
              ltac:(discriminate) eq_refl)
    as [run0 [m [c [Hrun0 [Hop [Hmin [Hiff _]]]]]]].
  exists run0, m, c. repeat split; try assumption; apply Hiff.
Defined.

Lemma single_identity_gate_is_removed_witness :
  (0 < List.length (params (op (mkNode 2 (Pauli.u3 0 0 0))))
   /\ array_equal (Linalg := Pauli.linalg)
        (to_matrix (op (mkNode 2 (Pauli.u3 0 0 0)))) identity_matrix = true)
  /\ Run.body (L := Pauli.linalg) (G := Wire.wire) [mkDecomposer "U3"]
       [mkNode 2 (Pauli.u3 0 0 0)] [mkNode 2 (Pauli.u3 0 0 0)]
     = Ok [].
Proof.
  assert (H1 : 0 < List.length (params (op (mkNode 2 (Pauli.u3 0 0 0)))))
    by (simpl; lia).
  assert (H2 : array_equal (Linalg := Pauli.linalg)
                 (to_matrix (op (mkNode 2 (Pauli.u3 0 0 0)))) identity_matrix
               = true) by reflexivity.
  split; [split; assumption |].
  exact (proj1 (proj2 (single_identity_gate_is_removed
                         (L := Pauli.linalg) (G := Wire.wire)
                         [mkDecomposer "U3"] [mkNode 2 (Pauli.u3 0 0 0)]
                         (mkNode 2 (Pauli.u3 0 0 0)) [] H1 H2))).
Defined.

Lemma single_gate_special_iff_u3_near_0_or_half_pi_witness :
  (Nat.ltb 0 (List.length (params (op (mkNode 0 (Pauli.u3 0 0 np_pi)))))
   && array_equal (Linalg := Pauli.linalg)
        (to_matrix (op (mkNode 0 (Pauli.u3 0 0 np_pi)))) identity_matrix
   = false
   /\ (is_U3Gate (op (mkNode 0 (Pauli.u3 0 0 np_pi))) = true ->
       params (op (mkNode 0 (Pauli.u3 0 0 np_pi))) <> []))
  /\ Run.single_gate (L := Pauli.linalg) (G := Wire.wire)
       [mkNode 0 (Pauli.u3 0 0 np_pi)] [mkNode 0 (Pauli.u3 0 0 np_pi)]
     = Ok ([mkNode 0 (Pauli.u3 0 0 np_pi)], Proceed true).
Proof.
  split; [split; [reflexivity | discriminate] |].
  refine (proj1 (single_gate_special_iff_u3_near_0_or_half_pi
                   (L := Pauli.linalg) (G := Wire.wire)
                   [mkDecomposer "U1X"] [mkNode 0 (Pauli.u3 0 0 np_pi)]
                   (mkNode 0 (Pauli.u3 0 0 np_pi)) eq_refl _) _).
  - discriminate.
  - split; [reflexivity |]. exists 0%float.
    split; [reflexivity | left; reflexivity].
Defined.

Lemma no_decomposer_no_change_witness :
  (Some (@nil OneQubitEulerDecomposer) = None
   \/ Some (@nil OneQubitEulerDecomposer) = Some [])
  /\ Init.init example_euler_basis_gates (Some ["cx"; "h"]) = Ok (Some [])
  /\ Run.run (L := Pauli.linalg) (G := Wire.wire) (Some [])
       [mkNode 0 Pauli.x; mkNode 1 Pauli.x]
     = Ok [mkNode 0 Pauli.x; mkNode 1 Pauli.x].
Proof.
  split; [right; reflexivity |]. split; [reflexivity |].
  exact (no_decomposer_no_change (L := Pauli.linalg) (G := Wire.wire)
           (Some []) [mkNode 0 Pauli.x; mkNode 1 Pauli.x]
           (or_intror eq_refl)).
Defined.

Lemma accepted_candidate_matches_run_operator_witness :
  ((forall d m, In d [mkDecomposer "U3"] ->
      Pauli.of_circuit (call (Linalg := Pauli.linalg) d m) = m)
   /\ [mkDecomposer "U3"] <> []
   /\ Run.single_gate (L := Pauli.linalg) (G := Wire.wire)
        [mkNode 0 Pauli.x; mkNode 1 Pauli.z; mkNode 2 Pauli.x]
        [mkNode 0 Pauli.x; mkNode 1 Pauli.z; mkNode 2 Pauli.x]
      = Ok ([mkNode 0 Pauli.x; mkNode 1 Pauli.z; mkNode 2 Pauli.x],
            Proceed false))
  /\ Run.operator_of (L := Pauli.linalg)
       [mkNode 0 Pauli.x; mkNode 1 Pauli.z; mkNode 2 Pauli.x] = Ok Pauli.Z
  /\ exists new_circ,
       Py.min len (Run.new_circs_of (L := Pauli.linalg)
                     [mkDecomposer "U3"] Pauli.Z) = Ok new_circ
       /\ Pauli.of_circuit new_circ = Pauli.Z
       /\ Run.body (L := Pauli.linalg) (G := Wire.wire) [mkDecomposer "U3"]
            [mkNode 0 Pauli.x; mkNode 1 Pauli.z; mkNode 2 Pauli.x]
            [mkNode 0 Pauli.x; mkNode 1 Pauli.z; mkNode 2 Pauli.x]
          = Ok (fold_left (remove_op_node (Dag := Wire.wire))
                  [mkNode 1 Pauli.z; mkNode 2 Pauli.x]
                  (substitute_node_with_dag (Dag := Wire.wire)
                     [mkNode 0 Pauli.x; mkNode 1 Pauli.z; mkNode 2 Pauli.x]
                     (mkNode 0 Pauli.x) (circuit_to_dag new_circ))).
Proof.
  assert (Hcontract : forall d m, In d [mkDecomposer "U3"] ->
            Pauli.of_circuit (call (Linalg := Pauli.linalg) d m) = m).
  { intros d m _. apply pauli_decompose_effect. }
  split; [split; [exact Hcontract | split; [discriminate | reflexivity]] |].
  destruct (accepted_candidate_matches_run_operator
              (L := Pauli.linalg) (G := Wire.wire)
              eq Pauli.of_circuit [mkDecomposer "U3"]
              [mkNode 0 Pauli.x; mkNode 1 Pauli.z; mkNode 2 Pauli.x]
              [mkNode 0 Pauli.x; mkNode 1 Pauli.z; mkNode 2 Pauli.x]
              (mkNode 0 Pauli.x) [mkNode 1 Pauli.z; mkNode 2 Pauli.x] false
              Hcontract ltac:(discriminate) eq_refl)
    as [Hop [c [Hmin [Hequiv Hbody]]]].
  split; [exact Hop |].
  exists c. split; [exact Hmin |]. split; [exact Hequiv |].
  destruct Hbody as [[Hacc _] | [_ Hbody]]; [| exact Hbody].
  exfalso. simpl in Hmin. inversion Hmin; subst c. discriminate Hacc.
Defined.


(** ** The diagonal instance meets the contract with circuits of minimal
    length *)




(** * Further properties *)

(** ** The basis selector: coverage *)

Section SelectorCoverage.

Variable table : EulerBasisGates.
Hypothesis table_keys : NoDup (map fst table).
Variable target : list string.

(** Whether a selected handle has gates strictly containing [g]. *)
Lemma strictly_above_dec (g : list string)
    (sel : list OneQubitEulerDecomposer) :
  (exists a ga, In a sel /\ gates_of table a ga
                /\ Py.issubset g ga = true /\ Py.issubset ga g = false)
  \/ (forall d gd, In d sel -> gates_of table d gd ->
        Py.issubset g gd = true -> Py.issubset gd g = true).
Proof.
  induction sel as [| a sel IH].
  - right. intros d gd [].
  - destruct IH as [[b [gb [Hb H]]] | IH].
    + left. exists b, gb. split; [now right | exact H].
    + destruct (Py.getitem table (basis a)) as [ga | e] eqn:Ega.
      * destruct (Py.issubset g ga && negb (Py.issubset ga g)) eqn:E.
        -- apply andb_true_iff in E. destruct E as [E1 E2].
           apply negb_true_iff in E2.
           left. exists a, ga. split; [now left | auto].
        -- right. intros d gd [<- | Hd] Hgd Hsub.
           ++ unfold gates_of in Hgd. rewrite Ega in Hgd.
              inversion Hgd; subst gd. rewrite Hsub in E. simpl in E.
              now apply negb_false_iff in E.
           ++ exact (IH d gd Hd Hgd Hsub).
      * right. intros d gd [<- | Hd] Hgd Hsub.
        -- unfold gates_of in Hgd. congruence.
        -- exact (IH d gd Hd Hgd Hsub).
Qed.

Lemma step_covered pre n g post sel sel' :
  table = pre ++ (n, g) :: post ->
  selected_inv table target pre sel ->
  covered table target pre sel ->
  Init.step table target sel (n, g) = Ok sel' ->
  covered table target (pre ++ [(n, g)]) sel'.
Proof.
  intros Htab Hinv Hcov Hstep.
  destruct (step_spec table table_keys target pre n g post sel Htab Hinv)
    as [sel1 [Hstep1 [_ [_ [_ [Hkeep Hadd]]]]]].
  assert (sel1 = sel') by congruence. subst sel1. clear Hstep1.
  pose proof Hinv as [_ [_ Hanti]].
  assert (Hgn : gates_of table (mkDecomposer n) g).
  { apply gates_of_item; [exact table_keys |]. rewrite Htab.
    apply in_or_app. right. now left. }
  (* when a selected handle lies within [g], the new handle is appended *)
  assert (Hadded : forall d gd, In d sel -> gates_of table d gd ->
            Py.issubset g target = true -> Py.issubset gd g = true ->
            In (mkDecomposer n) sel').
  { intros d gd Hd Hgd Hq Hsub. apply Hadd; [exact Hq |].
    intros a ga Ha Hga Hsup.
    destruct (decomposer_eq_dec a d) as [-> | Hne].
    - now rewrite (gates_of_fun _ _ _ _ Hga Hgd).
    - pose proof (Hanti d a gd ga Hd Ha (fun H => Hne (eq_sym H)) Hgd Hga)
        as Hf.
      rewrite (issubset_trans _ _ _ Hsub Hsup) in Hf. discriminate. }
  intros n0 g0 Hin Hq0. apply in_app_or in Hin.
  destruct Hin as [Hin | [Heq | []]].
  - destruct (Hcov n0 g0 Hin Hq0) as [d [gd [Hd [Hgd Hsub0]]]].
    destruct (Py.issubset g target) eqn:Hq.
    + destruct (Py.issubset gd g) eqn:Hsub.
      * exists (mkDecomposer n), g. split; [| split; [exact Hgn |]].
        -- exact (Hadded d gd Hd Hgd eq_refl Hsub).
        -- exact (issubset_trans _ _ _ Hsub0 Hsub).
      * exists d, gd. split; [| auto]. apply (Hkeep d gd); auto.
    + exists d, gd. split; [| auto]. apply (Hkeep d gd); auto.
      intros H. discriminate H.
  - inversion Heq; subst n0 g0.
    destruct (strictly_above_dec g sel) as [[a [ga [Ha [Hga [H1 H2]]]]] | Hmax].
    + exists a, ga. split; [| auto]. apply (Hkeep a ga); auto.
    + exists (mkDecomposer n), g.
      split; [exact (Hadd Hq0 Hmax) | split; [exact Hgn |]].
      apply issubset_refl.
Qed.

Lemma loop_covered :
  forall items pre post sel sel',
    table = pre ++ items ++ post ->
    selected_inv table target pre sel ->
    covered table target pre sel ->
    Init.loop table target items sel = Ok sel' ->
    covered table target (pre ++ items) sel'.
Proof.
  induction items as [| [n g] items IH];
    intros pre post sel sel' Htab Hinv Hcov Hloop.
  - simpl in Hloop. inversion Hloop; subst. now rewrite app_nil_r.
  - simpl in Htab.
    destruct (step_spec table table_keys target pre n g (items ++ post) sel
                Htab Hinv) as [sel1 [Hstep [Hinv1 _]]].
    cbn [Init.loop] in Hloop. rewrite Hstep in Hloop. cbn [bind] in Hloop.
    assert (Htab' : table = (pre ++ [(n, g)]) ++ items ++ post).
    { rewrite <- app_assoc. exact Htab. }
    pose proof (step_covered pre n g (items ++ post) sel sel1
                  Htab Hinv Hcov Hstep) as Hcov1.
    pose proof (IH (pre ++ [(n, g)]) post sel1 sel' Htab' Hinv1 Hcov1 Hloop)
      as H.
    rewrite <- app_assoc in H. exact H.
Qed.

(** The whole table: the loop raises nothing and leaves a selection that
    satisfies the invariant and covers every fitting item. *)
Lemma loop_table :
  exists sel,
    Init.loop table target table [] = Ok sel
    /\ selected_inv table target table sel
    /\ covered table target table sel.
Proof.
  destruct (loop_spec table table_keys target table [] [] [])
    as [sel [Hloop [Hinv _]]].
  - now rewrite app_nil_r.
  - apply selected_inv_nil.
  - exists sel. split; [exact Hloop |]. simpl in Hinv.
    split; [exact Hinv |].
    apply (loop_covered table [] [] [] sel); auto.
    + now rewrite app_nil_r.
    + apply selected_inv_nil.
    + intros n g [].
Qed.

Lemma init_nonempty_target :
  target <> [] ->
  Init.init table (Some target)
  = (self_basis <- Init.loop table target table [] ;; Ok (Some self_basis)).
Proof.
  destruct target; [contradiction | reflexivity].
Qed.

End SelectorCoverage.

(** X1. Whenever names are configured, every basis of the table whose gates
    are within the configured names is covered by the selection: some
    selected basis has gates containing its gates. *)
Theorem every_fitting_basis_is_covered
    (table : EulerBasisGates) (target : list string) :
  NoDup (map fst table) -> target <> [] ->
  exists sel,
    Init.init table (Some target) = Ok (Some sel)
    /\ forall n g, In (n, g) table -> Py.issubset g target = true ->
         exists d gd, In d sel /\ gates_of table d gd
                      /\ Py.issubset gd target = true
                      /\ Py.issubset g gd = true.
Proof.
  intros Hkeys Hne.
  destruct (loop_table table Hkeys target) as [sel [Hloop [Hinv Hcov]]].
  exists sel. rewrite (init_nonempty_target table target Hne), Hloop.
  split; [reflexivity |].
  intros n g Hin Hq. destruct (Hcov n g Hin Hq) as [d [gd [Hd [Hgd Hsub]]]].
  exists d, gd. repeat split; auto.
  destruct (gates_of_selected table Hkeys target table [] sel d
              ltac:(now rewrite app_nil_r) Hinv Hd) as [g' [Hg' [_ Hq']]].
  now rewrite (gates_of_fun _ _ _ _ Hgd Hg').
Qed.

Lemma every_fitting_basis_is_covered_witness :
  (NoDup (map fst example_euler_basis_gates) /\ ["u3"; "u1"; "rx"] <> [])
  /\ exists sel,
       Init.init example_euler_basis_gates (Some ["u3"; "u1"; "rx"])
       = Ok (Some sel)
       /\ exists d gd, In d sel /\ gates_of example_euler_basis_gates d gd
                        /\ Py.issubset ["u1"; "rx"] gd = true.
Proof.
  assert (H : NoDup (map fst example_euler_basis_gates)) by nodup_literals.
  split; [split; [exact H | discriminate] |].
  destruct (every_fitting_basis_is_covered example_euler_basis_gates
              ["u3"; "u1"; "rx"] H ltac:(discriminate))
    as [sel [Hinit Hcov]].
  exists sel. split; [exact Hinit |].
  destruct (Hcov "U1X" ["u1"; "rx"]
              ltac:(simpl; right; left; reflexivity) eq_refl)
    as [d [gd [Hd [Hgd [_ Hsub]]]]].
  exists d, gd. auto.
Defined.

(** ** The basis selector: which bases are selected *)

Section SelectorChoice.

Variable table : EulerBasisGates.
Hypothesis table_keys : NoDup (map fst table).
Variable target : list string.

(** A basis visited before a fitting basis whose gates contain its own is
    not in the final selection. *)
Lemma earlier_subset_is_dropped pre mid post n1 n2 g1 g2 sel :
  table = pre ++ (n1, g1) :: mid ++ (n2, g2) :: post ->
  Py.issubset g1 g2 = true -> Py.issubset g2 target = true ->
  Init.loop table target table [] = Ok sel ->
  ~ In (mkDecomposer n1) sel.
Proof.
  intros Htab Hs12 Hq2 Hrun.
  set (P := pre ++ (n1, g1) :: mid).
  assert (HtabP : table = P ++ (n2, g2) :: post).
  { rewrite Htab. unfold P. rewrite <- app_assoc. reflexivity. }
  assert (Hn1 : ~ In n1 (map fst (mid ++ (n2, g2) :: post))).
  { pose proof table_keys as Hnd. rewrite Htab, map_app in Hnd.
    simpl in Hnd. apply NoDup_remove_2 in Hnd. intros Hin. apply Hnd.
    apply in_or_app. now right. }
  assert (Hn12 : n1 <> n2).
  { intros ->. apply Hn1. rewrite map_app. apply in_or_app. right. now left. }
  assert (Hn1post : ~ In n1 (map fst post)).
  { intros Hin. apply Hn1. rewrite map_app. apply in_or_app. right.
    now right. }
  assert (Hg1 : gates_of table (mkDecomposer n1) g1).
  { apply gates_of_item; [exact table_keys |]. rewrite Htab.
    apply in_or_app. right. now left. }
  destruct (loop_spec table table_keys target P [] ((n2, g2) :: post) [])
    as [selP [HloopP [HinvP _]]];
    [exact HtabP | apply selected_inv_nil |].
  simpl in HinvP.
  destruct (step_spec table table_keys target P n2 g2 post selP HtabP HinvP)
    as [sel2 [Hstep [Hinv2 [Hfrom2 [Hrem2 _]]]]].
  destruct (loop_spec table table_keys target post (P ++ [(n2, g2)]) [] sel2)
    as [sel' [Hloop [_ [Hfrom _]]]];
    [rewrite app_nil_r, <- app_assoc; exact HtabP | exact Hinv2 |].
  assert (Hrun' : Init.loop table target (P ++ (n2, g2) :: post) []
                  = Ok sel').
  { rewrite loop_app, HloopP. cbn [bind Init.loop].
    rewrite Hstep. cbn [bind]. exact Hloop. }
  rewrite <- HtabP in Hrun'.
  assert (sel' = sel) by congruence. subst sel'.
  intros Hin. destruct (Hfrom _ Hin) as [Hin2 | Hpost];
    [| exact (Hn1post Hpost)].
  destruct (Hfrom2 _ Hin2) as [HinP | Heq];
    [| inversion Heq; contradiction].
  exact (Hrem2 _ g1 HinP Hg1 Hq2 Hs12 Hin2).
Qed.

(** A fitting basis is in the final selection when no fitting basis has
    strictly more gates and no fitting basis visited later has gates
    containing its own. *)
Lemma maximal_last_is_selected pre post n g sel :
  table = pre ++ (n, g) :: post ->
  Py.issubset g target = true ->
  (forall n' g', In (n', g') table -> Py.issubset g' target = true ->
     Py.issubset g g' = true -> Py.issubset g' g = true) ->
  (forall n' g', In (n', g') post -> Py.issubset g' target = true ->
     Py.issubset g g' = false) ->
  Init.loop table target table [] = Ok sel ->
  In (mkDecomposer n) sel.
Proof.
  intros Htab Hq Hstrict Hlater Hrun.
  assert (Hg : gates_of table (mkDecomposer n) g).
  { apply gates_of_item; [exact table_keys |]. rewrite Htab.
    apply in_or_app. right. now left. }
  destruct (loop_spec table table_keys target pre [] ((n, g) :: post) [])
    as [selP [HloopP [HinvP _]]];
    [exact Htab | apply selected_inv_nil |].
  simpl in HinvP.
  destruct (step_spec table table_keys target pre n g post selP Htab HinvP)
    as [sel2 [Hstep [Hinv2 [_ [_ [_ Hadd2]]]]]].
  destruct (loop_spec table table_keys target post (pre ++ [(n, g)]) [] sel2)
    as [sel' [Hloop [_ [_ Hkeep]]]];
    [rewrite app_nil_r, <- app_assoc; exact Htab | exact Hinv2 |].
  assert (Hrun' : Init.loop table target (pre ++ (n, g) :: post) []
                  = Ok sel').
  { rewrite loop_app, HloopP. cbn [bind Init.loop].
    rewrite Hstep. cbn [bind]. exact Hloop. }
  rewrite <- Htab in Hrun'.
  assert (sel' = sel) by congruence. subst sel'.
  apply (Hkeep _ g); [| exact Hg | exact Hlater].
  apply Hadd2; [exact Hq |].
  intros d gd Hd Hgd Hsup.
  destruct (gates_of_selected table table_keys target pre ((n, g) :: post)
              selP d Htab HinvP Hd) as [g' [Hg' [Hin' Hq']]].
  rewrite (gates_of_fun _ _ _ _ Hgd Hg') in *.
  apply (Hstrict (basis d) g'); auto.
  rewrite Htab. apply in_or_app. now left.
Qed.

End SelectorChoice.

Lemma selected_iff (table : EulerBasisGates) (target : list string)
    (pre post : list (string * list string)) (n : string) (g : list string)
    (sel : list OneQubitEulerDecomposer) :
  NoDup (map fst table) ->
  table = pre ++ (n, g) :: post ->
  Init.loop table target table [] = Ok sel ->
  In (mkDecomposer n) sel <->
  Py.issubset g target = true
  /\ (forall n' g', In (n', g') table ->
        Py.issubset g' target = true ->
        Py.issubset g g' = true -> Py.issubset g' g = true)
  /\ (forall n' g', In (n', g') post ->
        Py.issubset g' target = true ->
        Py.issubset g g' = false).
Proof.
  intros Hkeys Htab Hrun.
  destruct (loop_table table Hkeys target) as [sel0 [Hloop [Hinv Hcov]]].
  assert (sel0 = sel) by congruence. subst sel0.
  assert (Hg : gates_of table (mkDecomposer n) g).
  { apply gates_of_item; [exact Hkeys |]. rewrite Htab.
    apply in_or_app. right. now left. }
  split.
  - intros Hin.
    destruct (gates_of_selected table Hkeys target table [] sel _
                ltac:(now rewrite app_nil_r) Hinv Hin) as [g0 [Hg0 [_ Hq0]]].
    rewrite <- (gates_of_fun _ _ _ _ Hg Hg0) in Hq0.
    split; [exact Hq0 | split].
    + intros n' g' Hin' Hq' Hsub.
      destruct (Hcov n' g' Hin' Hq') as [e [ge [He [Hge Hsub']]]].
      destruct (decomposer_eq_dec e (mkDecomposer n)) as [-> | Hneq].
      * now rewrite (gates_of_fun _ _ _ _ Hg Hge).
      * destruct Hinv as [_ [_ Hanti]].
        pose proof (Hanti _ e g ge Hin He (fun H => Hneq (eq_sym H)) Hg Hge)
          as Hf.
        rewrite (issubset_trans _ _ _ Hsub Hsub') in Hf. discriminate.
    + intros n' g' Hin' Hq'.
      destruct (Py.issubset g g') eqn:Hsub; [| reflexivity].
      exfalso. apply in_split in Hin'. destruct Hin' as [p1 [p2 Hpost]].
      apply (earlier_subset_is_dropped table Hkeys target
               pre p1 p2 n n' g g' sel); auto.
      rewrite Htab, Hpost. reflexivity.
  - intros [Hq [Hstrict Hlater]].
    exact (maximal_last_is_selected table Hkeys target pre post n g sel
             Htab Hq Hstrict Hlater Hloop).
Qed.

(** X2. Which bases the constructor selects. A basis of the table is
    selected exactly when its gates are within the configured names, no
    basis within the configured names has strictly more gates, and no basis
    within the configured names that comes later in the table has gates
    containing its own. *)
Theorem selected_iff_maximal_and_last
    (table : EulerBasisGates) (target : list string)
    (pre post : list (string * list string)) (n : string) (g : list string) :
  NoDup (map fst table) ->
  table = pre ++ (n, g) :: post ->
  target <> [] ->
  exists sel,
    Init.init table (Some target) = Ok (Some sel)
    /\ (In (mkDecomposer n) sel <->
        Py.issubset g target = true
        /\ (forall n' g', In (n', g') table ->
              Py.issubset g' target = true ->
              Py.issubset g g' = true -> Py.issubset g' g = true)
        /\ (forall n' g', In (n', g') post ->
              Py.issubset g' target = true ->
              Py.issubset g g' = false)).
Proof.
  intros Hkeys Htab Hne.
  destruct (loop_table table Hkeys target) as [sel [Hloop _]].
  exists sel. rewrite (init_nonempty_target table target Hne), Hloop.
  split; [reflexivity |].
  exact (selected_iff table target pre post n g sel Hkeys Htab Hloop).
Qed.

Lemma selected_iff_maximal_and_last_witness :
  (NoDup (map fst example_euler_basis_gates)
   /\ example_euler_basis_gates
      = [("U3", ["u3"]); ("U1X", ["u1"; "rx"]); ("ZYZ", ["rz"; "ry"])]
        ++ ("ZXZ", ["rz"; "rx"]) :: [("XYX", ["rx"; "ry"])]
   /\ ["rz"; "rx"; "u3"] <> [])
  /\ exists sel,
       Init.init example_euler_basis_gates (Some ["rz"; "rx"; "u3"])
       = Ok (Some sel)
       /\ In (mkDecomposer "ZXZ") sel.
Proof.
  assert (H : NoDup (map fst example_euler_basis_gates)) by nodup_literals.
  split; [split; [exact H | split; [reflexivity | discriminate]] |].
  destruct (selected_iff_maximal_and_last example_euler_basis_gates
              ["rz"; "rx"; "u3"]
              [("U3", ["u3"]); ("U1X", ["u1"; "rx"]); ("ZYZ", ["rz"; "ry"])]
              [("XYX", ["rx"; "ry"])] "ZXZ" ["rz"; "rx"]
              H eq_refl ltac:(discriminate))
    as [sel [Hinit Hiff]].
  exists sel. split; [exact Hinit |]. apply Hiff.
  split; [reflexivity | split].
  - intros n' g' Hin Hq Hsub. simpl in Hin.
    repeat (destruct Hin as [Heq | Hin];
            [inversion Heq; subst; try discriminate Hq;
             try discriminate Hsub; try reflexivity |]).
    contradiction.
  - intros n' g' Hin Hq. simpl in Hin.
    destruct Hin as [Heq | []]. inversion Heq; subst. discriminate Hq.
Defined.

(** X3. Whenever names are configured, the selection is empty exactly when
    no basis of the table has its gates within the configured names. With
    the pass's guard on an empty selection, the pass then returns every
    graph unchanged. *)
Theorem selection_empty_iff_nothing_fits
    (table : EulerBasisGates) (target : list string) :
  NoDup (map fst table) -> target <> [] ->
  exists sel,
    Init.init table (Some target) = Ok (Some sel)
    /\ (sel = [] <->
        forall n g, In (n, g) table -> Py.issubset g target = false)
    /\ (sel = [] ->
        forall (L : Linalg) (G : Dag) (dag : DAGCircuit),
          Run.run (Some sel) dag = Ok dag).
Proof.
  intros Hkeys Hne.
  destruct (loop_table table Hkeys target) as [sel [Hloop [Hinv Hcov]]].
  exists sel. rewrite (init_nonempty_target table target Hne), Hloop.
  split; [reflexivity | split; [split |]].
  - intros -> n g Hin. destruct (Py.issubset g target) eqn:Hq; [| reflexivity].
    destruct (Hcov n g Hin Hq) as [d [_ [[] _]]].
  - intros Hnone. destruct sel as [| d sel]; [reflexivity |].
    destruct Hinv as [_ [Hfrom _]].
    destruct (Hfrom d (or_introl eq_refl)) as [g [Hin Hq]].
    rewrite (Hnone _ _ Hin) in Hq. discriminate.
  - intros -> L G dag. reflexivity.
Qed.

Lemma selection_empty_iff_nothing_fits_witness :
  (NoDup (map fst example_euler_basis_gates) /\ ["cx"; "h"] <> [])
  /\ exists sel,
       Init.init example_euler_basis_gates (Some ["cx"; "h"]) = Ok (Some sel)
       /\ sel = [].
Proof.
  assert (H : NoDup (map fst example_euler_basis_gates)) by nodup_literals.
  split; [split; [exact H | discriminate] |].
  destruct (selection_empty_iff_nothing_fits example_euler_basis_gates
              ["cx"; "h"] H ltac:(discriminate))
    as [sel [Hinit [Hiff _]]].
  exists sel. split; [exact Hinit |]. apply Hiff.
  intros n g Hin. simpl in Hin.
  repeat (destruct Hin as [Heq | Hin]; [inversion Heq; reflexivity |]).
  contradiction.
Defined.

(** ** The basis selector: what the selection depends on *)

Lemma issubset_agree (g t1 t2 : list string) :
  (forall x, In x g -> (In x t1 <-> In x t2)) ->
  Py.issubset g t1 = Py.issubset g t2.
Proof.
  intros Hagree. apply Bool.eq_iff_eq_true. rewrite !issubset_spec.
  split; intros H x Hx; apply (Hagree x Hx); auto.
Qed.

Lemma loop_agree (table : EulerBasisGates) (t1 t2 : list string) :
  forall items sel,
    (forall n g, In (n, g) items -> Py.issubset g t1 = Py.issubset g t2) ->
    Init.loop table t1 items sel = Init.loop table t2 items sel.
Proof.
  induction items as [| [n g] items IH]; intros sel Hitems; simpl.
  - reflexivity.
  - rewrite (Hitems n g (or_introl eq_refl)).
    destruct (Py.issubset g t2).
    + destruct (Init.scan table g sel sel) as [[sb broke] | e]; simpl.
      * destruct broke; apply IH; intros n' g' Hin;
          apply (Hitems n' g'); now right.
      * reflexivity.
    + simpl. apply IH. intros n' g' Hin. apply (Hitems n' g'). now right.
Qed.

(** X4. The selection depends on the configured names only through the
    gate names that occur in the table: two non-empty configurations that
    agree on every gate name of every basis (whatever their order, their
    repetitions and their other names, such as two-qubit gates) give the
    same selection. *)
Theorem selection_depends_on_euler_gates_only
    (table : EulerBasisGates) (t1 t2 : list string) :
  t1 <> [] -> t2 <> [] ->
  (forall n g x, In (n, g) table -> In x g -> (In x t1 <-> In x t2)) ->
  Init.init table (Some t1) = Init.init table (Some t2).
Proof.
  intros H1 H2 Hagree.
  rewrite (init_nonempty_target table t1 H1),
          (init_nonempty_target table t2 H2).
  rewrite (loop_agree table t1 t2 table []); [reflexivity |].
  intros n g Hin. apply issubset_agree. intros x Hx.
  exact (Hagree n g x Hin Hx).
Qed.

Lemma selection_depends_on_euler_gates_only_witness :
  (["u3"; "cx"] <> [] /\ ["h"; "u3"; "cz"; "u3"] <> []
   /\ forall n g x, In (n, g) example_euler_basis_gates -> In x g ->
        (In x ["u3"; "cx"] <-> In x ["h"; "u3"; "cz"; "u3"]))
  /\ Init.init example_euler_basis_gates (Some ["u3"; "cx"])
     = Init.init example_euler_basis_gates (Some ["h"; "u3"; "cz"; "u3"]).
Proof.
  assert (Hagree : forall n g x, In (n, g) example_euler_basis_gates ->
            In x g -> (In x ["u3"; "cx"] <-> In x ["h"; "u3"; "cz"; "u3"])).
  { intros n g x Hin Hx. simpl in Hin.
    repeat (destruct Hin as [Heq | Hin];
            [inversion Heq; subst; simpl in Hx;
             repeat (destruct Hx as [<- | Hx]);
             try contradiction; simpl;
             split; intros H; intuition discriminate |]).
    contradiction. }
  split; [split; [discriminate | split; [discriminate | exact Hagree]] |].
  exact (selection_depends_on_euler_gates_only example_euler_basis_gates
           ["u3"; "cx"] ["h"; "u3"; "cz"; "u3"]
           ltac:(discriminate) ltac:(discriminate) Hagree).
Defined.

(** ** The basis selector: the order of the selection *)

Lemma subseq_refl {A : Type} (l : list A) : subseq l l.
Proof.
  induction l; [apply subseq_nil | apply subseq_keep; assumption].
Qed.

Lemma subseq_trans {A : Type} (l1 l2 l3 : list A) :
  subseq l1 l2 -> subseq l2 l3 -> subseq l1 l3.
Proof.
  intros H12 H23. revert l1 H12.
  induction H23 as [| x l2 l3 H23 IH | x l2 l3 H23 IH]; intros l1 H12.
  - exact H12.
  - apply subseq_skip. now apply IH.
  - inversion H12; subst.
    + apply subseq_skip. now apply IH.
    + apply subseq_keep. now apply IH.
Qed.

Lemma subseq_map {A B : Type} (f : A -> B) (l1 l2 : list A) :
  subseq l1 l2 -> subseq (map f l1) (map f l2).
Proof.
  induction 1; simpl;
    [apply subseq_nil | apply subseq_skip | apply subseq_keep]; assumption.
Qed.

Lemma subseq_app {A : Type} (l1 l2 k1 k2 : list A) :
  subseq l1 l2 -> subseq k1 k2 -> subseq (l1 ++ k1) (l2 ++ k2).
Proof.
  induction 1; intros Hk; simpl;
    [exact Hk | apply subseq_skip | apply subseq_keep]; auto.
Qed.

Lemma remove_subseq (l l' : list OneQubitEulerDecomposer)
    (x : OneQubitEulerDecomposer) :
  Py.remove decomposer_eqb l x = Ok l' -> subseq l' l.
Proof.
  revert l'. induction l as [| y l IH]; intros l' H; simpl in H.
  - discriminate.
  - destruct (decomposer_eqb y x).
    + inversion H; subst. apply subseq_skip, subseq_refl.
    + destruct (Py.remove decomposer_eqb l x) as [l1 | e]; simpl in H;
        [| discriminate].
      inversion H; subst. apply subseq_keep. now apply IH.
Qed.

Lemma scan_subseq (table : EulerBasisGates) (gates : list string) :
  forall copy sb sb' broke,
    Init.scan table gates copy sb = Ok (sb', broke) -> subseq sb' sb.
Proof.
  induction copy as [| base rest IH]; intros sb sb' broke H; simpl in H.
  - inversion H; subst. apply subseq_refl.
  - destruct (Py.getitem table (basis base)) as [bg | e]; simpl in H;
      [| discriminate].
    destruct (Py.issubset bg gates).
    + destruct (Py.remove decomposer_eqb sb base) as [sb1 | e] eqn:Hrem;
        simpl in H; [| discriminate].
      apply (subseq_trans _ sb1).
      * exact (IH _ _ _ H).
      * exact (remove_subseq _ _ _ Hrem).
    + destruct (Py.issubset gates bg).
      * inversion H; subst. apply subseq_refl.
      * exact (IH _ _ _ H).
Qed.

Lemma loop_subseq (table : EulerBasisGates) (target : list string) :
  forall items pre sel sel',
    subseq (map basis sel)
           (map fst (filter (fun item => Py.issubset (snd item) target) pre)) ->
    Init.loop table target items sel = Ok sel' ->
    subseq (map basis sel')
           (map fst (filter (fun item => Py.issubset (snd item) target)
                            (pre ++ items))).
Proof.
  induction items as [| [n g] items IH]; intros pre sel sel' Hsub Hloop.
  - simpl in Hloop. inversion Hloop; subst. now rewrite app_nil_r.
  - cbn [Init.loop] in Hloop.
    destruct (Init.step table target sel (n, g)) as [sel1 | e] eqn:Hstep;
      cbn [bind] in Hloop; [| discriminate].
    replace (pre ++ (n, g) :: items) with ((pre ++ [(n, g)]) ++ items)
      by (rewrite <- app_assoc; reflexivity).
    apply (IH _ sel1); [| exact Hloop].
    rewrite filter_app, map_app. unfold Init.step in Hstep.
    cbn [filter snd]. destruct (Py.issubset g target).
    + destruct (Init.scan table g sel sel) as [[sb broke] | e] eqn:Hscan;
        simpl in Hstep; [| discriminate].
      pose proof (subseq_trans _ _ _
                    (subseq_map basis _ _ (scan_subseq _ _ _ _ _ _ Hscan))
                    Hsub) as Hsb.
      destruct broke; inversion Hstep; subst sel1.
      * rewrite <- (app_nil_r (map basis sb)).
        apply subseq_app; [exact Hsb |]. simpl. apply subseq_skip, subseq_nil.
      * rewrite map_app. apply subseq_app; [exact Hsb |]. apply subseq_refl.
    + inversion Hstep; subst sel1. simpl. now rewrite app_nil_r.
Qed.

(** X5. The selected bases stand in the order of the table: the names of
    the selection, read in order, are the names of the table's bases within
    the configured names with some of them left out. So the order in which
    the pass tries the decomposers, and in which it breaks ties between
    candidates of equal length, is the order of the table. *)
Theorem selection_keeps_table_order
    (table : EulerBasisGates) (target : list string)
    (sel : list OneQubitEulerDecomposer) :
  Init.init table (Some target) = Ok (Some sel) ->
  subseq (map basis sel)
         (map fst (filter (fun item => Py.issubset (snd item) target) table)).
Proof.
  intros Hinit. destruct target as [| t0 target]; [discriminate Hinit |].
  unfold Init.init in Hinit.
  destruct (Init.loop table (t0 :: target) table []) as [sel0 | e] eqn:Hloop;
    simpl in Hinit; [| discriminate].
  inversion Hinit; subst sel0.
  apply (loop_subseq table (t0 :: target) table [] [] sel);
    [apply subseq_nil | exact Hloop].
Qed.

Lemma selection_keeps_table_order_witness :
  Init.init example_euler_basis_gates (Some ["rz"; "rx"; "ry"; "u3"])
  = Ok (Some [mkDecomposer "U3"; mkDecomposer "ZYZ"; mkDecomposer "ZXZ";
              mkDecomposer "XYX"])
  /\ subseq
       (map basis [mkDecomposer "U3"; mkDecomposer "ZYZ"; mkDecomposer "ZXZ";
                   mkDecomposer "XYX"])
       (map fst
          (filter (fun item => Py.issubset (snd item)
                                 ["rz"; "rx"; "ry"; "u3"])
                  example_euler_basis_gates)).
Proof.
  split; [reflexivity |].
  exact (selection_keeps_table_order example_euler_basis_gates
           ["rz"; "rx"; "ry"; "u3"] _ eq_refl).
Defined.

(** ** The run optimizer: exceptions and effects *)

Section RunEffects.

Context {L : Linalg} {G : Dag}.

Lemma single_gate_well_formed (dag : DAGCircuit) (run : list DAGNode) :
  well_formed_run run ->
  exists dag' fl, Run.single_gate dag run = Ok (dag', fl).
Proof.
  intros [Hne Hu3]. unfold Run.single_gate.
  destruct run as [| run0 [| run1 rest]]; [contradiction | |].
  - simpl.
    destruct (Nat.ltb 0 (List.length (params (op run0)))
              && array_equal (to_matrix (op run0)) identity_matrix);
      [eauto |].
    destruct (is_U3Gate (op run0)) eqn:E; simpl.
    + destruct (params (op run0)) as [| p0 ps] eqn:Ep.
      * exfalso. apply (Hu3 run0 (or_introl eq_refl) E). exact Ep.
      * simpl. destruct (isclose_0_or_half_pi p0); eauto.
    + eauto.
  - simpl. eauto.
Qed.

Lemma body_well_formed (self_basis : list OneQubitEulerDecomposer)
    (dag : DAGCircuit) (run : list DAGNode) :
  well_formed_run run ->
  exists dag', Run.body self_basis dag run = Ok dag'.
Proof.
  intros Hwf.
  destruct (single_gate_well_formed dag run Hwf) as [dag1 [fl Hsg]].
  destruct (body_outcome self_basis dag run) as [H | [H | H]];
    [exact H | |]; exfalso; unfold Run.body in H; rewrite Hsg in H;
    cbn [bind] in H; destruct fl as [| single_u3]; try discriminate H.
  - destruct (single_gate_proceed dag dag1 run single_u3 Hsg)
      as [_ [Hrun Hflag]].
    destruct self_basis as [| d0 ds].
    + destruct run; [contradiction | discriminate H].
    + destruct (optimize_spec (d0 :: ds) dag1 run single_u3
                  ltac:(discriminate) Hrun)
        as [run0 [m [c [i [d [Hrun0 [_ [_ [_ [_ [_ [_ Hopt]]]]]]]]]]]].
      destruct (accepts_spec run single_u3 c Hrun Hflag) as [ok [Hok _]].
      rewrite Hopt, Hok in H. cbn [bind] in H. destruct ok.
      * rewrite (substitute_nonempty dag1 run run0 c Hrun0) in H.
        discriminate H.
      * discriminate H.
  - destruct (single_gate_proceed dag dag1 run single_u3 Hsg)
      as [_ [Hrun Hflag]].
    destruct self_basis as [| d0 ds].
    + destruct run; [contradiction | discriminate H].
    + destruct (optimize_spec (d0 :: ds) dag1 run single_u3
                  ltac:(discriminate) Hrun)
        as [run0 [m [c [i [d [Hrun0 [_ [_ [_ [_ [_ [_ Hopt]]]]]]]]]]]].
      destruct (accepts_spec run single_u3 c Hrun Hflag) as [ok [Hok _]].
      rewrite Hopt, Hok in H. cbn [bind] in H. destruct ok.
      * rewrite (substitute_nonempty dag1 run run0 c Hrun0) in H.
        discriminate H.
      * discriminate H.
Qed.

Lemma for_runs_well_formed (self_basis : list OneQubitEulerDecomposer) :
  forall runs dag,
    (forall run, In run runs -> well_formed_run run) ->
    exists dag', Run.for_runs self_basis runs dag = Ok dag'.
Proof.
  induction runs as [| run runs IH]; intros dag Hwf; simpl.
  - eauto.
  - destruct (body_well_formed self_basis dag run (Hwf run (or_introl eq_refl)))
      as [dag1 Hbody].
    rewrite Hbody. cbn [bind]. apply IH. intros r Hr. apply Hwf. now right.
Qed.

(** X6. The pass raises nothing when every run the graph reports has at
    least one node and every U3Gate in a run carries its parameters: it
    returns a graph. *)
Theorem run_returns_on_well_formed_runs
    (self_basis : option (list OneQubitEulerDecomposer)) (dag : DAGCircuit) :
  (forall run, In run (collect_1q_runs dag) -> well_formed_run run) ->
  exists dag', Run.run self_basis dag = Ok dag'.
Proof.
  intros Hwf. destruct self_basis as [[| d0 ds] |]; simpl; eauto.
  apply for_runs_well_formed. exact Hwf.
Qed.

(** X7. An empty run among those the graph reports aborts the pass: once
    the well-formed runs before it have been processed, [run[0]] raises
    IndexError, and the pass returns no graph. With no decomposer selected
    the runs are not looked at and the same graph is returned unchanged. *)
Theorem empty_run_raises_index_error
    (decomposer : OneQubitEulerDecomposer)
    (decomposers : list OneQubitEulerDecomposer)
    (dag : DAGCircuit) (before after : list (list DAGNode)) :
  collect_1q_runs dag = before ++ [] :: after ->
  (forall run, In run before -> well_formed_run run) ->
  Run.run (Some (decomposer :: decomposers)) dag = Raise (IndexError run_0)
  /\ Run.run (Some []) dag = Ok dag
  /\ Run.run None dag = Ok dag.
Proof.
  intros Hruns Hwf. split; [| split; reflexivity].
  cbn [Run.run]. rewrite Hruns. clear Hruns.
  generalize dag. induction before as [| run before IH]; intros dag0.
  - reflexivity.
  - cbn [app Run.for_runs].
    destruct (body_well_formed (decomposer :: decomposers) dag0 run
                (Hwf run (or_introl eq_refl))) as [dag1 Hbody].
    rewrite Hbody. cbn [bind]. apply IH. intros r Hr. apply Hwf. now right.
Qed.

(** X8. What the loop body can do to the graph. When it returns, the graph
    is the one it was given, or that graph with the single node of a
    one-gate run removed (a parameterised gate whose matrix is the
    identity), or that graph with the run's first node substituted by the
    output of one of the selected decomposers on the run's operator and the
    run's other nodes removed. No other node is touched and no other
    circuit is inserted. *)
Theorem body_effect_is_confined_to_the_run
    (self_basis : list OneQubitEulerDecomposer)
    (dag dag' : DAGCircuit) (run : list DAGNode) :
  Run.body self_basis dag run = Ok dag' ->
  dag' = dag
  \/ (exists node,
        run = [node]
        /\ 0 < List.length (params (op node))
        /\ array_equal (to_matrix (op node)) identity_matrix = true
        /\ dag' = remove_op_node dag node)
  \/ (exists run0 decomposer operator,
        nth_error run 0 = Some run0
        /\ In decomposer self_basis
        /\ Run.operator_of run = Ok operator
        /\ (len (call decomposer operator) < List.length run
            \/ (List.length run = 1
                /\ exists first,
                     nth_error (data (call decomposer operator)) 0
                     = Some first
                     /\ name first <> "u3"))
        /\ dag' = fold_left remove_op_node (skipn 1 run)
                    (substitute_node_with_dag dag run0
                       (circuit_to_dag (call decomposer operator)))).
Proof.
  intros Hbody.
  destruct (Run.single_gate dag run) as [[dag1 fl] | e] eqn:Hsg;
    [| unfold Run.body in Hbody; rewrite Hsg in Hbody; discriminate Hbody].
  destruct fl as [| single_u3].
  - (* continue: unchanged, or the identity gate removed *)
    unfold Run.body in Hbody. rewrite Hsg in Hbody. cbn [bind] in Hbody.
    inversion Hbody; subst dag1. clear Hbody.
    unfold Run.single_gate in Hsg.
    destruct run as [| run0 [| run1 rest]]; simpl in Hsg;
      [discriminate | | discriminate].
    destruct (Nat.ltb 0 (List.length (params (op run0)))) eqn:Hp;
      destruct (array_equal (to_matrix (op run0)) identity_matrix) eqn:Hid;
      simpl in Hsg.
    + inversion Hsg; subst. right. left. exists run0.
      apply Nat.ltb_lt in Hp. auto.
    + destruct (is_U3Gate (op run0)); simpl in Hsg.
      * destruct (params (op run0)) as [| p0 ps]; simpl in Hsg;
          [discriminate |].
        destruct (isclose_0_or_half_pi p0); inversion Hsg; now left.
      * inversion Hsg; now left.
    + destruct (is_U3Gate (op run0)); simpl in Hsg.
      * destruct (params (op run0)) as [| p0 ps]; simpl in Hsg;
          [discriminate |].
        destruct (isclose_0_or_half_pi p0); inversion Hsg; now left.
      * inversion Hsg; now left.
    + destruct (is_U3Gate (op run0)); simpl in Hsg.
      * destruct (params (op run0)) as [| p0 ps]; simpl in Hsg;
          [discriminate |].
        destruct (isclose_0_or_half_pi p0); inversion Hsg; now left.
      * inversion Hsg; now left.
  - (* on to line 93 *)
    rewrite (body_proceed self_basis dag dag1 run single_u3 Hsg) in Hbody.
    destruct (single_gate_proceed dag dag1 run single_u3 Hsg)
      as [_ [Hrun Hflag]].
    destruct self_basis as [| d0 ds].
    + destruct run; [contradiction |]. inversion Hbody. now left.
    + destruct (optimize_spec (d0 :: ds) dag run single_u3
                  ltac:(discriminate) Hrun)
        as [run0 [m [c [i [d [Hrun0 [Hop [_ [Hd [Hc [_ [_ Hopt]]]]]]]]]]]].
      destruct (accepts_spec run single_u3 c Hrun Hflag) as [ok [Hok Hiff]].
      rewrite Hopt, Hok in Hbody. cbn [bind] in Hbody. destruct ok.
      * rewrite (substitute_nonempty dag run run0 c Hrun0) in Hbody.
        inversion Hbody. right. right. exists run0, d, m.
        split; [exact Hrun0 |]. split; [eapply nth_error_In; exact Hd |].
        split; [exact Hop |]. rewrite <- Hc. split; [| reflexivity].
        (* the flag is set only on a run of one gate *)
        destruct (proj1 Hiff eq_refl) as [Hlt | [Hsu Hfirst]].
        -- now left.
        -- right. split; [exact (Hflag Hsu) | exact Hfirst].
      * inversion Hbody. now left.
Qed.

End RunEffects.

Lemma run_returns_on_well_formed_runs_witness :
  (forall run,
     In run (collect_1q_runs (Dag := Wire.wire)
               [mkNode 0 Pauli.x; mkNode 1 Pauli.x]) ->
     well_formed_run run)
  /\ exists dag',
       Run.run (L := Pauli.linalg) (G := Wire.wire)
         (Some [mkDecomposer "U3"; mkDecomposer "U1X"])
         [mkNode 0 Pauli.x; mkNode 1 Pauli.x] = Ok dag'.
Proof.
  assert (Hwf : forall run,
            In run (collect_1q_runs (Dag := Wire.wire)
                      [mkNode 0 Pauli.x; mkNode 1 Pauli.x]) ->
            well_formed_run run).
  { intros run [<- | []]. split; [discriminate |].
    intros node [<- | [<- | []]] H; discriminate H. }
  split; [exact Hwf |].
  exact (run_returns_on_well_formed_runs (L := Pauli.linalg) (G := Wire.wire)
           (Some [mkDecomposer "U3"; mkDecomposer "U1X"])
           [mkNode 0 Pauli.x; mkNode 1 Pauli.x] Hwf).
Defined.

Lemma empty_run_raises_index_error_witness :
  (collect_1q_runs (Dag := Malformed.dag) tt = [] ++ [] :: []
   /\ forall run, In run (@nil (list DAGNode)) -> well_formed_run run)
  /\ Run.run (L := Pauli.linalg) (G := Malformed.dag)
       (Some [mkDecomposer "U3"]) tt
     = Raise (IndexError run_0).
Proof.
  assert (Hwf : forall run, In run (@nil (list DAGNode)) ->
                            well_formed_run run) by (intros run []).
  split; [split; [reflexivity | exact Hwf] |].
  exact (proj1 (empty_run_raises_index_error
                  (L := Pauli.linalg) (G := Malformed.dag)
                  (mkDecomposer "U3") [] tt [] [] eq_refl Hwf)).
Defined.

Lemma body_effect_is_confined_to_the_run_witness :
  Run.body (L := Pauli.linalg) (G := Wire.wire) [mkDecomposer "U3"]
    [mkNode 0 Pauli.x; mkNode 1 Pauli.x] [mkNode 0 Pauli.x; mkNode 1 Pauli.x]
  = Ok [mkNode 2 (Pauli.u3 0 0 0)]
  /\ ([mkNode 2 (Pauli.u3 0 0 0)] = [mkNode 0 Pauli.x; mkNode 1 Pauli.x]
      \/ (exists node,
            [mkNode 0 Pauli.x; mkNode 1 Pauli.x] = [node]
            /\ 0 < List.length (params (op node))
            /\ array_equal (Linalg := Pauli.linalg)
                 (to_matrix (op node)) identity_matrix = true
            /\ [mkNode 2 (Pauli.u3 0 0 0)]
               = remove_op_node (Dag := Wire.wire)
                   [mkNode 0 Pauli.x; mkNode 1 Pauli.x] node)
      \/ (exists run0 decomposer operator,
            nth_error [mkNode 0 Pauli.x; mkNode 1 Pauli.x] 0 = Some run0
            /\ In decomposer [mkDecomposer "U3"]
            /\ Run.operator_of (L := Pauli.linalg)
                 [mkNode 0 Pauli.x; mkNode 1 Pauli.x] = Ok operator
            /\ (len (call decomposer operator) < 2
                \/ (2 = 1
                    /\ exists first,
                         nth_error (data (call decomposer operator)) 0
                         = Some first
                         /\ name first <> "u3"))
            /\ [mkNode 2 (Pauli.u3 0 0 0)]
               = fold_left (remove_op_node (Dag := Wire.wire))
                   (skipn 1 [mkNode 0 Pauli.x; mkNode 1 Pauli.x])
                   (substitute_node_with_dag (Dag := Wire.wire)
                      [mkNode 0 Pauli.x; mkNode 1 Pauli.x] run0
                      (circuit_to_dag (call decomposer operator))))).
Proof.
  split; [reflexivity |].
  exact (body_effect_is_confined_to_the_run
           (L := Pauli.linalg) (G := Wire.wire) [mkDecomposer "U3"]
           [mkNode 0 Pauli.x; mkNode 1 Pauli.x] [mkNode 2 (Pauli.u3 0 0 0)]
           [mkNode 0 Pauli.x; mkNode 1 Pauli.x] eq_refl).
Defined.

(** ** The run optimizer: a first parameter that is not a finite number *)

From Stdlib Require ZArith.

Lemma SFeqb_self_false (s : spec_float) : SFeqb s s = false -> s = S754_nan.
Proof.
  unfold SFeqb. destruct s as [b | b | | b m e]; simpl; try discriminate.
  - destruct b; discriminate.
  - reflexivity.
  - rewrite BinInt.Z.compare_refl, BinPos.Pos.compare_cont_refl.
    destruct b; discriminate.
Qed.

Lemma nan_repr (x : float) :
  PrimFloat.is_nan x = true -> Prim2SF x = S754_nan.
Proof.
  unfold PrimFloat.is_nan. rewrite FloatAxioms.eqb_spec. intros H.
  apply negb_true_iff in H. now apply SFeqb_self_false.
Qed.

Lemma infinity_repr (x : float) :
  PrimFloat.is_infinity x = true -> exists s, Prim2SF x = S754_infinity s.
Proof.
  unfold PrimFloat.is_infinity. rewrite FloatAxioms.eqb_spec, abs_spec.
  change (Prim2SF infinity) with (S754_infinity false).
  destruct (Prim2SF x) as [b | b | | b m e]; simpl; try discriminate.
  intros _. now exists b.
Qed.

Lemma isclose_non_finite (x : float) :
  PrimFloat.is_finite x = false -> isclose_0_or_half_pi x = false.
Proof.
  unfold PrimFloat.is_finite. intros H. apply negb_false_iff in H.
  unfold isclose_0_or_half_pi, Py.isclose.
  rewrite !leb_spec, !abs_spec, !sub_spec.
  apply orb_true_iff in H. destruct H as [H | H].
  - rewrite (nan_repr x H). reflexivity.
  - destruct (infinity_repr x H) as [s ->]. vm_compute. reflexivity.
Qed.

(** X9. A U3Gate whose first parameter is NaN or an infinity is never
    marked: the closeness test of lines 87-88 is false for it, so a run
    made of that gate alone (its matrix not being the identity) is skipped
    and the graph is returned as it was given. *)
Theorem non_finite_angle_is_never_special
    {L : Linalg} {G : Dag}
    (self_basis : list OneQubitEulerDecomposer)
    (dag : DAGCircuit) (node : DAGNode) (p0 : float) (ps : list float) :
  is_U3Gate (op node) = true ->
  params (op node) = p0 :: ps ->
  PrimFloat.is_finite p0 = false ->
  array_equal (to_matrix (op node)) identity_matrix = false ->
  isclose_0_or_half_pi p0 = false
  /\ Run.single_gate dag [node] = Ok (dag, Continue)
  /\ Run.body self_basis dag [node] = Ok dag.
Proof.
  intros Hu3 Hparams Hnf Hid.
  pose proof (isclose_non_finite p0 Hnf) as Hclose.
  assert (Hsg : Run.single_gate dag [node] = Ok (dag, Continue)).
  { unfold Run.single_gate.
    change (Nat.leb (List.length [node]) 1) with true. cbv iota.
    unfold Py.index at 1. change (nth_error [node] 0) with (Some node).
    cbn [bind]. cbv zeta. rewrite Hid, andb_false_r, Hu3, Hparams.
    unfold Py.index. cbn [nth_error bind]. rewrite Hclose. reflexivity. }
  split; [exact Hclose | split; [exact Hsg |]].
  unfold Run.body. rewrite Hsg. reflexivity.
Qed.

Lemma non_finite_angle_is_never_special_witness :
  (is_U3Gate (op (mkNode 0 (Pauli.u3 nan 0 np_pi))) = true
   /\ params (op (mkNode 0 (Pauli.u3 nan 0 np_pi))) = [nan; 0%float; np_pi]
   /\ PrimFloat.is_finite nan = false
   /\ array_equal (Linalg := Pauli.linalg)
        (to_matrix (op (mkNode 0 (Pauli.u3 nan 0 np_pi)))) identity_matrix
      = false)
  /\ Run.body (L := Pauli.linalg) (G := Wire.wire) [mkDecomposer "U1X"]
       [mkNode 0 (Pauli.u3 nan 0 np_pi)] [mkNode 0 (Pauli.u3 nan 0 np_pi)]
     = Ok [mkNode 0 (Pauli.u3 nan 0 np_pi)].
Proof.
  split; [repeat split; reflexivity |].
  exact (proj2 (proj2 (non_finite_angle_is_never_special
                         (L := Pauli.linalg) (G := Wire.wire)
                         [mkDecomposer "U1X"]
                         [mkNode 0 (Pauli.u3 nan 0 np_pi)]
                         (mkNode 0 (Pauli.u3 nan 0 np_pi))
                         nan [0%float; np_pi]
                         eq_refl eq_refl eq_refl eq_refl))).
Defined.

(** ** The basis selector: selecting again from the selected gates *)

Lemma subseq_In {A : Type} (l1 l2 : list A) (x : A) :
  subseq l1 l2 -> In x l1 -> In x l2.
Proof.
  induction 1; intros Hin.
  - exact Hin.
  - right. auto.
  - destruct Hin as [-> | Hin]; [now left | right; auto].
Qed.

Lemma subseq_filter {A : Type} (f : A -> bool) (l : list A) :
  subseq (filter f l) l.
Proof.
  induction l as [| x l IH]; simpl.
  - apply subseq_nil.
  - destruct (f x); [apply subseq_keep | apply subseq_skip]; exact IH.
Qed.

(** Two selections out of a list without repeats that have the same
    elements are the same list. *)
Lemma subseq_same_members {A : Type} :
  forall (l l1 l2 : list A),
    NoDup l -> subseq l1 l -> subseq l2 l ->
    (forall x, In x l1 <-> In x l2) ->
    l1 = l2.
Proof.
  induction l as [| x l IH]; intros l1 l2 Hnd H1 H2 Hsame.
  - inversion H1; inversion H2; reflexivity.
  - inversion Hnd as [| ? ? Hx Hnd']; subst.
    inversion H1 as [| ? ? ? H1' | ? l1' ? H1']; subst;
      inversion H2 as [| ? ? ? H2' | ? l2' ? H2']; subst.
    + apply IH; auto.
    + exfalso. apply Hx. apply (subseq_In l1 l x H1').
      apply Hsame. now left.
    + exfalso. apply Hx. apply (subseq_In l2 l x H2').
      apply Hsame. now left.
    + f_equal. apply IH; auto. intros y. split; intros Hy.
      * destruct (proj1 (Hsame y) (or_intror Hy)) as [<- | H]; [| exact H].
        exfalso. apply Hx. exact (subseq_In _ _ _ H1' Hy).
      * destruct (proj2 (Hsame y) (or_intror Hy)) as [<- | H]; [| exact H].
        exfalso. apply Hx. exact (subseq_In _ _ _ H2' Hy).
Qed.

Lemma map_basis_inj (l1 l2 : list OneQubitEulerDecomposer) :
  map basis l1 = map basis l2 -> l1 = l2.
Proof.
  revert l2. induction l1 as [| [a] l1 IH]; intros [| [b] l2] H;
    simpl in H; try discriminate; [reflexivity |].
  inversion H; subst. f_equal. now apply IH.
Qed.

Lemma gates_of_selection_In (table : EulerBasisGates)
    (sel : list OneQubitEulerDecomposer) (x : string) :
  In x (gates_of_selection table sel) <->
  exists d g, In d sel /\ gates_of table d g /\ In x g.
Proof.
  unfold gates_of_selection, gates_of. rewrite in_flat_map. split.
  - intros [d [Hd Hx]].
    destruct (Py.getitem table (basis d)) as [g | e] eqn:E; [| contradiction].
    exists d, g. auto.
  - intros [d [g [Hd [Hg Hx]]]]. exists d. rewrite Hg. auto.
Qed.

(** X10. Selecting again from the gates of the selection changes nothing:
    when the constructor has selected the bases [sel] for some configured
    names, a constructor configured with exactly the gate names of the
    bases in [sel] selects [sel] again, in the same order. *)
Theorem selection_is_a_fixed_point
    (table : EulerBasisGates) (target : list string)
    (sel : list OneQubitEulerDecomposer) :
  NoDup (map fst table) ->
  Init.init table (Some target) = Ok (Some sel) ->
  gates_of_selection table sel <> [] ->
  Init.init table (Some (gates_of_selection table sel)) = Ok (Some sel).
Proof.
  intros Hkeys Hinit Hne'.
  assert (Hne : target <> []) by (intros ->; discriminate Hinit).
  rewrite (init_nonempty_target table target Hne) in Hinit.
  destruct (loop_table table Hkeys target) as [sel0 [Hloop [Hinv Hcov]]].
  rewrite Hloop in Hinit. simpl in Hinit.
  assert (sel0 = sel) by congruence. subst sel0. clear Hinit.
  set (target' := gates_of_selection table sel) in *.
  destruct (loop_table table Hkeys target') as [sel' [Hloop' [Hinv' _]]].
  rewrite (init_nonempty_target table target' Hne'), Hloop'. simpl.
  do 2 f_equal.
  assert (Hentry : forall s d, selected_inv table target table s -> In d s ->
            exists g, gates_of table d g /\ In (basis d, g) table
                      /\ Py.issubset g target = true).
  { intros s d Hs Hd.
    exact (gates_of_selected table Hkeys target table [] s d
             ltac:(now rewrite app_nil_r) Hs Hd). }
  assert (Hentry' : forall d, In d sel' ->
            exists g, gates_of table d g /\ In (basis d, g) table
                      /\ Py.issubset g target' = true).
  { intros d Hd.
    exact (gates_of_selected table Hkeys target' table [] sel' d
             ltac:(now rewrite app_nil_r) Hinv' Hd). }
  (* the gates of a selected basis are within the new target *)
  assert (F1 : forall d gd, In d sel -> gates_of table d gd ->
            Py.issubset gd target' = true).
  { intros d gd Hd Hgd. apply issubset_spec. intros x Hx.
    apply gates_of_selection_In. exists d, gd. auto. }
  (* what is within the new target is within the old one *)
  assert (F2 : forall g, Py.issubset g target' = true ->
            Py.issubset g target = true).
  { intros g Hg. apply issubset_spec. intros x Hx.
    apply (proj1 (issubset_spec g target') Hg) in Hx.
    apply gates_of_selection_In in Hx.
    destruct Hx as [d [gd [Hd [Hgd Hx]]]].
    destruct (Hentry sel d Hinv Hd) as [g0 [Hg0 [_ Hq0]]].
    rewrite (gates_of_fun _ _ _ _ Hgd Hg0) in Hx.
    exact (proj1 (issubset_spec g0 target) Hq0 x Hx). }
  assert (Hmk : forall d : OneQubitEulerDecomposer,
            mkDecomposer (basis d) = d) by (intros [a]; reflexivity).
  symmetry. apply map_basis_inj.
  apply (subseq_same_members (map fst table)); [exact Hkeys | | |].
  - apply (subseq_trans _ (map fst (filter
             (fun item => Py.issubset (snd item) target) table))).
    + apply (loop_subseq table target table [] [] sel);
        [apply subseq_nil | exact Hloop].
    + apply subseq_map, subseq_filter.
  - apply (subseq_trans _ (map fst (filter
             (fun item => Py.issubset (snd item) target') table))).
    + apply (loop_subseq table target' table [] [] sel');
        [apply subseq_nil | exact Hloop'].
    + apply subseq_map, subseq_filter.
  - intros x. rewrite !in_map_iff. split.
    + (* selected before: selected again *)
      intros [d [<- Hd]].
      destruct (Hentry sel d Hinv Hd) as [g [Hg [Hin _]]].
      destruct (in_split _ _ Hin) as [pre [post Htab]].
      rewrite <- (Hmk d) in Hd.
      destruct (proj1 (selected_iff table target pre post (basis d) g sel
                         Hkeys Htab Hloop) Hd) as [Hq [Hmax Hlast]].
      exists d. split; [reflexivity |]. rewrite <- (Hmk d).
      apply (selected_iff table target' pre post (basis d) g sel'
               Hkeys Htab Hloop').
      split; [| split].
      * apply (F1 (mkDecomposer (basis d)) g Hd). now rewrite Hmk.
      * intros n' g' Hin' Hq'. apply (Hmax n' g' Hin'). now apply F2.
      * intros n' g' Hin' Hq'. apply (Hlast n' g' Hin'). now apply F2.
    + (* selected again: was selected before *)
      intros [d [<- Hd]].
      destruct (Hentry' d Hd) as [g [Hg [Hin Hq']]].
      destruct (in_split _ _ Hin) as [pre [post Htab]].
      rewrite <- (Hmk d) in Hd.
      destruct (proj1 (selected_iff table target' pre post (basis d) g sel'
                         Hkeys Htab Hloop') Hd) as [_ [Hmax' Hlast']].
      exists d. split; [reflexivity |].
      destruct (Hcov (basis d) g Hin (F2 g Hq')) as [e [ge [He [Hge Hsub]]]].
      destruct (Hentry sel e Hinv He) as [ge0 [Hge0 [Hine _]]].
      rewrite <- (gates_of_fun _ _ _ _ Hge Hge0) in Hine. clear ge0 Hge0.
      pose proof (F1 e ge He Hge) as Hqe'.
      pose proof (Hmax' (basis e) ge Hine Hqe' Hsub) as Hsup.
      rewrite Htab in Hine. apply in_app_or in Hine.
      destruct Hine as [Hpre | [Heq | Hpost]].
      * exfalso. destruct (in_split _ _ Hpre) as [p1 [p2 Hp]].
        apply (earlier_subset_is_dropped table Hkeys target
                 p1 p2 post (basis e) (basis d) ge g sel).
        -- rewrite Htab, Hp, <- app_assoc. reflexivity.
        -- exact Hsup.
        -- exact (F2 g Hq').
        -- exact Hloop.
        -- now rewrite Hmk.
      * inversion Heq as [[Hn Hgeq]]. 
        assert (e = d) by (rewrite <- (Hmk e), <- (Hmk d); now f_equal).
        now subst e.
      * exfalso. rewrite (Hlast' (basis e) ge Hpost Hqe') in Hsub.
        discriminate.
Qed.

Lemma selection_is_a_fixed_point_witness :
  (NoDup (map fst example_euler_basis_gates)
   /\ Init.init example_euler_basis_gates (Some ["rz"; "rx"; "cx"; "u3"])
      = Ok (Some [mkDecomposer "U3"; mkDecomposer "ZXZ"])
   /\ gates_of_selection example_euler_basis_gates
        [mkDecomposer "U3"; mkDecomposer "ZXZ"] <> [])
  /\ gates_of_selection example_euler_basis_gates
       [mkDecomposer "U3"; mkDecomposer "ZXZ"] = ["u3"; "rz"; "rx"]
  /\ Init.init example_euler_basis_gates (Some ["u3"; "rz"; "rx"])
     = Ok (Some [mkDecomposer "U3"; mkDecomposer "ZXZ"]).
Proof.
  assert (H : NoDup (map fst example_euler_basis_gates)) by nodup_literals.
  split; [split; [exact H | split; [reflexivity | discriminate]] |].
  split; [reflexivity |].
  exact (selection_is_a_fixed_point example_euler_basis_gates
           ["rz"; "rx"; "cx"; "u3"] [mkDecomposer "U3"; mkDecomposer "ZXZ"]
           H eq_refl ltac:(discriminate)).
Defined.
